(** * OpenSpeak progress analytics: a shallow embedding of [pages/progress.tsx]

    The development follows the page's helpers in source order: the dynamic
    values the history endpoint returns, [parseMaybeJSON], [scoreOf],
    [movingAvg], the chart scales and hover resolution of [LineChart], the
    aggregates of [ProgressPage] ([filtered], [totals], [insights]), the CSV
    export and the series builder.

    Conventions of the embedding.
    - A JavaScript value is a [value]; an object keeps its properties as an
      association list in insertion order, looked up by first match.
    - A JavaScript number is an exact rational ([Q]); the one place where the
      page computes [NaN] (the mean of an empty array) is modelled by
      [option Q] with [None] for [NaN].
    - [Date.getTime()] results are integral milliseconds ([Z]).
    - Host functions that are not part of the page ([JSON.parse], the
      number-to-string conversion of fractions, the time zone) are
      parameters of the definitions that call them. *)

From Stdlib Require Import ZArith QArith Qround Qabs Lia Lqa Bool Ascii String List.
From Stdlib Require Import Sorted Permutation DecimalString.
From stdpp Require Import gmap strings list.
Import ListNotations.

Set Warnings "-register-all".

Local Open Scope string_scope.
Local Open Scope list_scope.
Local Open Scope Z_scope.

(* ===================================================================== *)
(** ** JavaScript values *)
(* ===================================================================== *)

Inductive value : Type :=
| VUndefined
| VNull
| VBool (b : bool)
| VNum (q : Q)
| VStr (s : string)
| VArr (elems : list value)
| VObj (props : list (string * value)).

(** [!v] is [negb (truthy v)]. *)
Definition truthy (v : value) : bool :=
  match v with
  | VUndefined | VNull => false
  | VBool b => b
  | VNum q => negb (Qeq_bool q 0)
  | VStr s => negb (String.eqb s "")
  | VArr _ | VObj _ => true
  end.

(** [v === undefined || v === null]. *)
Definition nullish (v : value) : bool :=
  match v with
  | VUndefined | VNull => true
  | _ => false
  end.

(** [a ?? b]. *)
Definition coalesce (a b : value) : value :=
  if nullish a then b else a.

(** [typeof v === "object"] (true of [null] as well). *)
Definition typeof_object (v : value) : bool :=
  match v with
  | VNull | VArr _ | VObj _ => true
  | _ => false
  end.

(** [typeof v === "number"], returning the number. *)
Definition as_number (v : value) : option Q :=
  match v with
  | VNum q => Some q
  | _ => None
  end.

Fixpoint assoc (props : list (string * value)) (k : string) : option value :=
  match props with
  | [] => None
  | (k', v) :: rest => if String.eqb k' k then Some v else assoc rest k
  end.

(** [{...fb, k: x}] on a plain object: the key keeps its place when it is
    already there and is appended otherwise. *)
Fixpoint assoc_set (props : list (string * value)) (k : string) (x : value)
  : list (string * value) :=
  match props with
  | [] => [(k, x)]
  | (k', v) :: rest =>
      if String.eqb k' k then (k', x) :: rest else (k', v) :: assoc_set rest k x
  end.

(** [v[k]] and [v.k] on a value that is neither [undefined] nor [null].
    The property names this page reads ([opening] ... [overall], [scores],
    [score]) are neither array indices nor [length], so only plain objects
    answer with anything but [undefined]. *)
Definition js_get (v : value) (k : string) : value :=
  match v with
  | VObj props => match assoc props k with Some x => x | None => VUndefined end
  | _ => VUndefined
  end.

(** [v?.[k]]. *)
Definition js_get_opt (v : value) (k : string) : value :=
  if nullish v then VUndefined else js_get v k.

(** [k in v] for an object [v] ([typeof v === "object"], not [null]). *)
Definition js_in (k : string) (v : value) : bool :=
  match v with
  | VObj props => match assoc props k with Some _ => true | None => false end
  | _ => false
  end.

(* ===================================================================== *)
(** ** Categories and history items *)
(* ===================================================================== *)

Inductive Category : Type := opening | content | delivery | grammar | overall.

Definition key_name (k : Category) : string :=
  match k with
  | opening => "opening"
  | content => "content"
  | delivery => "delivery"
  | grammar => "grammar"
  | overall => "overall"
  end.

(* ===================================================================== *)
(** ** [scoreOf] *)
(* ===================================================================== *)

(** The value left in [inline] after line 47. *)
Definition inline_of (sec : value) : value :=
  if truthy sec && typeof_object sec && js_in "score" sec
  then js_get sec "score"
  else VNull.

(** [fb.scores?.[key]]. *)
Definition block_of (fb : value) (key : Category) : value :=
  js_get_opt (js_get fb "scores") (key_name key).

Definition scoreOf (fb : value) (key : Category) : value :=
  if negb (truthy fb) then VNull
  else
    let sec := js_get fb (key_name key) in
    let inline := inline_of sec in
    let fromBlock := block_of fb key in
    coalesce (coalesce inline fromBlock) VNull.

(* ===================================================================== *)
(** ** Strings *)
(* ===================================================================== *)

(** A string is a sequence of code units below 256.  [is_ws] holds of the
    white space and line terminators in that range, which is what
    [String.prototype.trim] strips. *)
Definition is_ws (c : ascii) : bool :=
  match nat_of_ascii c with
  | 9%nat | 10%nat | 11%nat | 12%nat | 13%nat | 32%nat | 160%nat => true
  | _ => false
  end.

Fixpoint trimStart (s : string) : string :=
  match s with
  | EmptyString => EmptyString
  | String c r => if is_ws c then trimStart r else s
  end.

Fixpoint trimEnd (s : string) : string :=
  match s with
  | EmptyString => EmptyString
  | String c r =>
      match trimEnd r with
      | EmptyString => if is_ws c then EmptyString else String c EmptyString
      | r' => String c r'
      end
  end.

Definition trim (s : string) : string := trimEnd (trimStart s).

Fixpoint startsWith (s p : string) : bool :=
  match p, s with
  | EmptyString, _ => true
  | String a p', String b s' => Ascii.eqb a b && startsWith s' p'
  | String _ _, EmptyString => false
  end.

Fixpoint string_rev (s : string) : string :=
  match s with
  | EmptyString => EmptyString
  | String c r => (string_rev r ++ String c EmptyString)%string
  end.

Definition endsWith (s p : string) : bool :=
  startsWith (string_rev s) (string_rev p).

(** [s.includes(p)]. *)
Fixpoint includes_str (s p : string) : bool :=
  startsWith s p ||
  match s with
  | EmptyString => false
  | String _ r => includes_str r p
  end.

Fixpoint join (sep : string) (cells : list string) : string :=
  match cells with
  | [] => EmptyString
  | [c] => c
  | c :: rest => (c ++ sep ++ join sep rest)%string
  end.

(* ===================================================================== *)
(** ** [parseMaybeJSON] *)
(* ===================================================================== *)

Definition looks_like_json (s : string) : bool :=
  (startsWith s "{" && endsWith s "}") || (startsWith s "[" && endsWith s "]").

Section Normalizer.

(** [JSON.parse]: [None] when it throws [SyntaxError]. *)
Variable JSON_parse : string -> option value.

Definition parseMaybeJSON (v : value) : value :=
  match v with
  | VStr str =>
      let s := trim str in
      if looks_like_json s then
        match JSON_parse s with
        | Some parsed => parsed
        | None => v
        end
      else v
  | _ => v
  end.

(** The spread of a value that is not a plain object: an array or a string
    would contribute index keys only, the other primitives nothing; none of
    them contributes a category key. *)
Definition spread_props (fb : value) : list (string * value) :=
  match fb with
  | VObj props => props
  | _ => []
  end.

(** The [feedback] field built at lines 221-230. *)
Definition normalizeFeedback (fb : value) : value :=
  if truthy fb then
    VObj (fold_left
            (fun props k => assoc_set props (key_name k)
                              (parseMaybeJSON (js_get fb (key_name k))))
            [opening; content; delivery; grammar; overall]
            (spread_props fb))
  else VUndefined.

End Normalizer.

(* ===================================================================== *)
(** ** Numbers and arrays *)
(* ===================================================================== *)

(** [arr.reduce((a, b) => a + b, 0)]. *)
Definition sumQ (arr : list Q) : Q := fold_left Qplus arr 0%Q.

Definition lengthQ {A} (arr : list A) : Q := inject_Z (Z.of_nat (length arr)).

(** [Math.round]: the nearest integer, a half going up. *)
Definition Math_round (q : Q) : Z := Qfloor (Qplus q (Qmake 1 2)).

Definition Math_maxQ (a b : Q) : Q := if Qle_bool a b then b else a.

(** [a < b] on numbers. *)
Definition Qlt_bool (a b : Q) : bool := negb (Qle_bool b a).

(** [arr.slice(from, to)] for [0 <= from]. *)
Definition slice {A} (arr : list A) (from to : nat) : list A :=
  firstn (to - from) (skipn from arr).

(** [Array.prototype.sort] with a comparator: a stable sort ([a] is placed
    before [b] when [cmp a b <= 0] and [a] came first).  For a comparator that
    is a total preorder every stable sort returns this list. *)
Fixpoint sort_insert {A} (cmp : A -> A -> Q) (a : A) (sortedArr : list A) : list A :=
  match sortedArr with
  | [] => [a]
  | b :: rest =>
      if Qle_bool (cmp a b) 0 then a :: b :: rest
      else b :: sort_insert cmp a rest
  end.

Fixpoint js_sort {A} (cmp : A -> A -> Q) (arr : list A) : list A :=
  match arr with
  | [] => []
  | a :: rest => sort_insert cmp a (js_sort cmp rest)
  end.

(** [Math.min(...xs)] and [Math.max(...xs)] of a non-empty array of
    millisecond stamps (an empty one is never passed: see [LineChart]). *)
Definition Math_min (xs : list Z) : Z :=
  match xs with
  | [] => 0
  | x :: rest => fold_left Z.min rest x
  end.

Definition Math_max (xs : list Z) : Z :=
  match xs with
  | [] => 0
  | x :: rest => fold_left Z.max rest x
  end.

(* ===================================================================== *)
(** ** History items *)
(* ===================================================================== *)

(** [created_at?: string] is only ever read as
    [it.created_at ? new Date(it.created_at) : null], so the field is kept by
    what that expression yields: nothing (absent or empty string), a [Date]
    that is invalid (time value [NaN]), or a [Date] with a time value. *)
Inductive CreatedAt : Type :=
| NoDate
| InvalidDate
| At (ms : Z).

Record HistoryItem : Type := mkItem {
  it_id : Z;
  it_transcript : option string;
  it_created_at : CreatedAt;
  it_feedback : value
}.

(** [d.getTime()] of the [Date] above, [None] for [NaN]. *)
Definition getTime (c : CreatedAt) : option Z :=
  match c with
  | At ms => Some ms
  | _ => None
  end.

(** The numbers among the resolved scores of [items] for [key]:
    [items.map(it => scoreOf(it.feedback, key)).filter(v => typeof v === "number")]. *)
Definition numsOf (items : list HistoryItem) (key : Category) : list Q :=
  omap as_number (map (fun it => scoreOf (it_feedback it) key) items).

(* ===================================================================== *)
(** ** [movingAvg] *)
(* ===================================================================== *)

Record Point : Type := mkPoint {
  pt_x : Z;
  pt_y : Q;
  pt_t : string;
  pt_id : Z
}.

(** [{ ...p, y }]. *)
Definition with_y (p : Point) (y : Q) : Point :=
  mkPoint (pt_x p) y (pt_t p) (pt_id p).

(** One turn of the loop at lines 63-68 for index [i], pushing onto [out]. *)
Definition movingAvg_step (points : list Point) (window : Z)
  (out : list Point) (i : nat) : list Point :=
  let from := Z.to_nat (Z.max 0 (Z.of_nat i - (window - 1))) in
  let win := slice points from (i + 1) in
  let y := (fold_left (fun a p => a + pt_y p) win 0 / lengthQ win)%Q in
  match nth_error points i with
  | Some p => out ++ [with_y p y]
  | None => out
  end.

Definition movingAvg (points : list Point) (window : Z) : list Point :=
  if window <=? 1 then points
  else fold_left (movingAvg_step points window) (seq 0 (length points)) [].

(* ===================================================================== *)
(** ** [LineChart]: scales and hover resolution *)
(* ===================================================================== *)

Record Series : Type := mkSeries {
  s_key : string;
  s_label : string;
  s_color : string;
  s_points : list Point
}.

(** What [onHover] receives. *)
Record Hover : Type := mkHover {
  h_label : string;
  h_x : Z;
  h_y : Q;
  h_t : string;
  h_color : string;
  h_id : Z
}.

(** The running [best] of [handleMouse].  [Math.hypot(dx, dy)] is the
    non-negative root of [dx*dx + dy*dy]; roots compare as their squares do,
    so [best.dist] is carried as its square. *)
Record Best : Type := mkBest {
  b_hover : Hover;
  b_dist2 : Q
}.

(** [const w = 900]. *)
Definition chart_w : Q := 900.

(** [series.flatMap(s => s.points)]. *)
Definition all_points (series : list Series) : list Point :=
  flat_map s_points series.

Section Chart.

(** The component's [height], [padding], [yMin] and [yMax] (defaults 260,
    36, 0 and 100). *)
Variables (height padding yMin yMax : Q).
Variable series : list Series.

Definition chart_minX : Z := Math_min (map pt_x (all_points series)).
Definition chart_maxX : Z := Math_max (map pt_x (all_points series)).

Definition xScale (x : Z) : Q :=
  (padding
   + (inject_Z (x - chart_minX) / Math_maxQ 1 (inject_Z (chart_maxX - chart_minX)))
     * (chart_w - padding * 2))%Q.

Definition yScale (y : Q) : Q :=
  (height - padding
   - ((y - yMin) / Math_maxQ 1 (yMax - yMin)) * (height - padding * 2))%Q.

(** Squared screen distance from the pointer [(mx, my)] to [p]. *)
Definition dist2 (mx my : Q) (p : Point) : Q :=
  let dx := (xScale (pt_x p) - mx)%Q in
  let dy := (yScale (pt_y p) - my)%Q in
  (dx * dx + dy * dy)%Q.

(** The body of the inner loop (line 118). *)
Definition hover_step (mx my : Q) (s : Series) (best : option Best) (p : Point)
  : option Best :=
  let d := dist2 mx my p in
  let cand :=
    mkBest (mkHover (s_label s) (pt_x p) (pt_y p) (pt_t p) (s_color s) (pt_id p)) d in
  match best with
  | None => Some cand
  | Some b => if Qlt_bool d (b_dist2 b) then Some cand else best
  end.

(** The two nested loops of [handleMouse]. *)
Definition nearest (mx my : Q) : option Best :=
  fold_left
    (fun best s => fold_left (hover_step mx my s) (s_points s) best)
    series None.

(** The argument [handleMouse] passes to [onHover]. *)
Definition handleMouse (mx my : Q) : option Hover :=
  option_map b_hover (nearest mx my).

End Chart.

(* ===================================================================== *)
(** ** Dates *)
(* ===================================================================== *)

Definition msPerDay : Z := 24 * 3600 * 1000.

(** [Day(t)] of ECMA-262: the day number of a time value. *)
Definition Day (t : Z) : Z := t / msPerDay.

Section LocalTime.

(** [LocalTZA(t, isUTC)] of ECMA-262: the offset of local time from UTC in
    milliseconds, at the UTC time value [t] when [isUTC] and at the local
    time value [t] otherwise. *)
Variable LocalTZA : Z -> bool -> Z.

Definition LocalTime (t : Z) : Z := t + LocalTZA t true.
Definition UTC (t : Z) : Z := t - LocalTZA t false.

(** [new Date(d.getFullYear(), d.getMonth(), d.getDate()).getTime()] for a
    date [d] with time value [t], and [cursor.setHours(0,0,0,0)] then
    [cursor.getTime()] for a cursor with time value [t]: local midnight of
    the local calendar day of [t].  (The constructor's remapping of the
    years 0 to 99 is not modelled.) *)
Definition localDayStart (t : Z) : Z := UTC (Day (LocalTime t) * msPerDay).

(** The [days] array of [streak]: day stamps of the records that have a
    date, [filter(Boolean)] dropping [null], [NaN] and [0], made unique by
    [new Set] and sorted ascending. *)
Definition streak_days (sorted : list HistoryItem) : list Z :=
  js_sort (fun a b => inject_Z (a - b))
    (remove_dups
       (omap (fun it =>
                match it_created_at it with
                | At ms =>
                    let stamp := localDayStart ms in
                    if stamp =? 0 then None else Some stamp
                | _ => None
                end) sorted)).

(** [days.includes(ts)]. *)
Definition includes (days : list Z) (ts : Z) : bool :=
  existsb (Z.eqb ts) days.

(** The [for (;;)] loop of [streak], on the cursor's time value; [None]
    when [fuel] turns do not reach the [break]. *)
Fixpoint streak_loop (fuel : nat) (days : list Z) (cursor : Z) (s : Z) : option Z :=
  match fuel with
  | O => None
  | S fuel' =>
      let ts := cursor in
      if includes days ts
      then streak_loop fuel' days (ts - 24 * 3600 * 1000) (s + 1)
      else Some s
  end.

(** [streak] at the moment [now] ([new Date()]). *)
Definition streak (now : Z) (sorted : list HistoryItem) : option Z :=
  if (length sorted =? 0)%nat then Some 0
  else
    let days := streak_days sorted in
    if (length days =? 0)%nat then Some 0
    else streak_loop (S (length days)) days (localDayStart now) 0.

End LocalTime.

(** A zone whose offset never changes. *)
Definition tz_fixed (offset : Z) : Z -> bool -> Z := fun _ _ => offset.

(** US Eastern time around the end of daylight saving on 2 November 2025:
    UTC-4 before 06:00 UTC of that day, UTC-5 from then on.  A local time
    value is read with the offset before the change up to 02:00 local. *)
Definition tz_new_york_2025 : Z -> bool -> Z :=
  fun t isUTC =>
    if isUTC
    then if t <? 1762063200000 then -4 * 3600 * 1000 else -5 * 3600 * 1000
    else if t <? 1762048800000 then -4 * 3600 * 1000 else -5 * 3600 * 1000.

(** Year, month (1 to 12) and day of month of a day number, in the
    proleptic Gregorian calendar ([YearFromTime], [MonthFromTime] + 1 and
    [DateFromTime] of ECMA-262). *)
Definition civil_from_days (days : Z) : Z * Z * Z :=
  let z := days + 719468 in
  let era := z / 146097 in
  let doe := z - era * 146097 in
  let yoe := (doe - doe / 1460 + doe / 36524 - doe / 146096) / 365 in
  let doy := doe - (365 * yoe + yoe / 4 - yoe / 100) in
  let mp := (5 * doy + 2) / 153 in
  let d := doy - (153 * mp + 2) / 5 + 1 in
  let m := if mp <? 10 then mp + 3 else mp - 9 in
  let y := yoe + era * 400 + (if m <=? 2 then 1 else 0) in
  (y, m, d).

(** The decimal digits of [n >= 0], padded with zeros on the left to
    [width] digits. *)
Definition pad (width : nat) (n : Z) : string :=
  let digits := NilZero.string_of_uint (N.to_uint (Z.to_N n)) in
  (string_of_list_ascii (repeat "0"%char (width - String.length digits)) ++ digits)%string.

(** [Date.prototype.toISOString] of a valid date with time value [t] (a
    time value is an integer of magnitude at most 8.64e15). *)
Definition toISOString (t : Z) : string :=
  let '(y, m, d) := civil_from_days (Day t) in
  let r := t mod msPerDay in
  let year :=
    if (0 <=? y) && (y <=? 9999) then pad 4 y
    else ((if (y <? 0)%Z then "-" else "+") ++ pad 6 (Z.abs y))%string in
  (year ++ "-" ++ pad 2 m ++ "-" ++ pad 2 d ++ "T"
   ++ pad 2 (r / 3600000)%Z ++ ":" ++ pad 2 (r / 60000 mod 60)%Z ++ ":"
   ++ pad 2 (r / 1000 mod 60)%Z ++ "." ++ pad 3 (r mod 1000)%Z ++ "Z")%string.

(* ===================================================================== *)
(** ** [ProgressPage]: sorting and range filter *)
(* ===================================================================== *)

(** The comparator key of [sorted]: the time value, [0] without a date,
    [None] ([NaN]) for an invalid date. *)
Definition sort_stamp (it : HistoryItem) : option Z :=
  match it_created_at it with
  | NoDate => Some 0
  | InvalidDate => None
  | At ms => Some ms
  end.

(** [da - db]; a [NaN] result makes the comparator answer [+0]. *)
Definition by_created_at (a b : HistoryItem) : Q :=
  match sort_stamp a, sort_stamp b with
  | Some da, Some db => inject_Z (da - db)
  | _, _ => 0%Q
  end.

(** [sorted]: the items in ascending order of [created_at]. *)
Definition sortedOf (items : list HistoryItem) : list HistoryItem :=
  js_sort by_created_at items.

Inductive Range : Type := R7 | R30 | R90 | RAll.

(** [parseInt(range, 10)] of a finite range. *)
Definition range_days (range : Range) : Z :=
  match range with
  | R7 => 7
  | R30 => 30
  | R90 => 90
  | RAll => 0
  end.

(** [filtered], with [now] for [Date.now()]. *)
Definition filtered (now : Z) (range : Range) (sorted : list HistoryItem)
  : list HistoryItem :=
  match range with
  | RAll => sorted
  | _ =>
      let days := range_days range in
      let cutoff := now - days * 24 * 3600 * 1000 in
      List.filter
        (fun it => match it_created_at it with
                   | At ms => ms >=? cutoff
                   | _ => false
                   end) sorted
  end.

(* ===================================================================== *)
(** ** [totals] *)
(* ===================================================================== *)

(** [filtered.length ? filtered : sorted]. *)
Definition base_of (filteredItems sorted : list HistoryItem) : list HistoryItem :=
  if (length filteredItems =? 0)%nat then sorted else filteredItems.

(** [getAvg(key)] over [base]; [None] is [null]. *)
Definition getAvg (base : list HistoryItem) (key : Category) : option Q :=
  let n := length base in
  if (n =? 0)%nat then None
  else
    let nums := numsOf base key in
    if (length nums =? 0)%nat then None
    else Some (inject_Z (Math_round (sumQ nums / lengthQ nums * 10)) / 10)%Q.

Record Totals : Type := mkTotals {
  sessions : nat;
  avgOverall : option Q;
  avgContent : option Q;
  avgDelivery : option Q;
  avgGrammar : option Q;
  avgOpening : option Q;
  totals_streak : option Z
}.

Definition totals (LocalTZA : Z -> bool -> Z) (now : Z)
  (filteredItems sorted : list HistoryItem) : Totals :=
  let base := base_of filteredItems sorted in
  mkTotals (length base)
    (getAvg base overall) (getAvg base content) (getAvg base delivery)
    (getAvg base grammar) (getAvg base opening)
    (streak LocalTZA now sorted).

(* ===================================================================== *)
(** ** [insights]: most improved section *)
(* ===================================================================== *)

(** [avg] of line 317: [None] is [NaN]. *)
Definition avg (arr : list Q) : option Q :=
  if (length arr =? 0)%nat then None else Some (sumQ arr / lengthQ arr)%Q.

(** [a - b] on numbers that may be [NaN]. *)
Definition sub_nan (a b : option Q) : option Q :=
  match a, b with
  | Some x, Some y => Some (x - y)%Q
  | _, _ => None
  end.

(** [v || 0]: [NaN] and [0] are the falsy numbers. *)
Definition or_zero (v : option Q) : Q :=
  match v with
  | Some q => if Qeq_bool q 0 then 0%Q else q
  | None => 0%Q
  end.

Record Delta : Type := mkDelta {
  d_key : Category;
  d_delta : Q
}.

Definition keys : list Category := [opening; content; delivery; grammar; overall].

(** The element [keys.map] builds for [k] (lines 315-318). *)
Definition delta_of (sorted : list HistoryItem) (k : Category) : Delta :=
  let half := (length sorted / 2)%nat in
  let first := numsOf (slice sorted 0 half) k in
  let second := numsOf (skipn half sorted) k in
  mkDelta k (or_zero (sub_nan (avg second) (avg first))).

Definition deltas (sorted : list HistoryItem) : list Delta :=
  js_sort
    (fun a b => (or_zero (Some (d_delta b)) - or_zero (Some (d_delta a)))%Q)
    (map (delta_of sorted) keys).


(* ===================================================================== *)
(** ** [String(v)] *)
(* ===================================================================== *)

Section ToString.

(** [Number::toString] on the numbers that are not integers of magnitude
    below [10^21] (it prints a shortest round-trip decimal or an exponent
    form there). *)
Variable fraction_toString : Q -> string.

(** [String(n)] of a number: an integer of magnitude below [10^21] is
    printed as its decimal digits. *)
Definition Number_toString (q : Q) : string :=
  let r := Qred q in
  if (Z.pos (Qden r) =? 1) && (Z.abs (Qnum r) <? 10 ^ 21)
  then NilZero.string_of_int (Z.to_int (Qnum r))
  else fraction_toString q.

Fixpoint js_String (v : value) : string :=
  match v with
  | VUndefined => "undefined"
  | VNull => "null"
  | VBool b => if b then "true" else "false"
  | VNum q => Number_toString q
  | VStr s => s
  | VArr elems =>
      join "," (map (fun e => if nullish e then EmptyString else js_String e) elems)
  | VObj _ => "[object Object]"
  end.

(* ===================================================================== *)
(** ** [exportCsv] *)
(* ===================================================================== *)

Definition dquote : ascii := "034"%char.
Definition comma : ascii := ","%char.
Definition newline : ascii := "010"%char.

(** The test of line 362: the cell holds a double quote, a comma or a line
    feed. *)
Fixpoint needs_quoting (cell : string) : bool :=
  match cell with
  | EmptyString => false
  | String c rest =>
      Ascii.eqb c dquote || Ascii.eqb c comma || Ascii.eqb c newline
      || needs_quoting rest
  end.

(** The [replace] of line 362: every double quote becomes two. *)
Fixpoint double_quotes (cell : string) : string :=
  match cell with
  | EmptyString => EmptyString
  | String c rest =>
      if Ascii.eqb c dquote
      then String dquote (String dquote (double_quotes rest))
      else String c (double_quotes rest)
  end.

(** The cell as written into the document (line 362). *)
Definition csv_cell (cell : string) : string :=
  if needs_quoting cell
  then (String dquote (double_quotes cell) ++ String dquote EmptyString)%string
  else cell.

Definition csv_header : list string :=
  ["id"; "date"; "opening"; "content"; "delivery"; "grammar"; "overall"].

(** The row pushed for [it] (lines 350-360); [None] when
    [d.toISOString()] throws [RangeError] on an invalid date. *)
Definition csv_row (it : HistoryItem) : option (list string) :=
  let score k := js_String (coalesce (scoreOf (it_feedback it) k) (VStr EmptyString)) in
  let cells date :=
    [Number_toString (inject_Z (it_id it)); date;
     score opening; score content; score delivery; score grammar; score overall] in
  match it_created_at it with
  | NoDate => Some (cells EmptyString)
  | InvalidDate => None
  | At ms => Some (cells (toISOString ms))
  end.

(** The text of the [csv] constant built by [exportCsv]. *)
Definition exportCsv (sorted : list HistoryItem) : option string :=
  match mapM csv_row sorted with
  | Some rows =>
      Some (join (String newline EmptyString)
              (map (fun r => join "," (map csv_cell r)) (csv_header :: rows)))
  | None => None
  end.

End ToString.

(* ===================================================================== *)
(** ** [basePoints]: the series builder *)
(* ===================================================================== *)

(** The callback of [base.map] in [mk] (lines 377-382): [Some None] for the
    [null] it returns without a date or a numeric score, [None] when
    [d.toISOString()] throws on an invalid date. *)
Definition point_of (key : Category) (it : HistoryItem) : option (option Point) :=
  let y := scoreOf (it_feedback it) key in
  match it_created_at it, as_number y with
  | NoDate, _ => Some None
  | _, None => Some None
  | InvalidDate, Some _ => None
  | At ms, Some n => Some (Some (mkPoint ms n (toISOString ms) (it_id it)))
  end.

Definition mk (base : list HistoryItem) (smooth : bool)
  (label : string) (key : Category) (color : string) : option Series :=
  match mapM (point_of key) base with
  | Some mapped =>
      let pts := omap (fun p => p) mapped in
      let sortedPts := js_sort (fun a b => inject_Z (pt_x a - pt_x b)) pts in
      Some (mkSeries (key_name key) label color
              (if smooth then movingAvg sortedPts 3 else sortedPts))
  | None => None
  end.

(** [visible[k] !== false] for the page's [visible] record. *)
Definition is_visible (visible : gmap string value) (k : string) : bool :=
  match default VUndefined (visible !! k) with
  | VBool false => false
  | _ => true
  end.

Definition basePoints (filteredItems : list HistoryItem) (smooth : bool)
  (visible : gmap string value) : option (list Series) :=
  let base := filteredItems in
  match mapM (fun '(label, key, color) => mk base smooth label key color)
          [("Overall", overall, "#22d3ee");
           ("Opening", opening, "#60a5fa");
           ("Content", content, "#34d399");
           ("Delivery", delivery, "#f472b6");
           ("Grammar", grammar, "#f59e0b")] with
  | Some all => Some (List.filter (fun s => is_visible visible (s_key s)) all)
  | None => None
  end.

(* ===================================================================== *)
(** ** A reference reading of [JSON.parse] *)
(* ===================================================================== *)

(** [parseMaybeJSON] is verified for every [JSON_parse].  To run it on
    sample documents this section gives a parser of the JSON grammar
    (RFC 8259) over code units below 256: objects, arrays, strings with the
    two-character escapes, numbers, [true], [false], [null].  A repeated key
    of an object keeps its first position and its last value.  A string
    with a [\u] escape is outside this reading and is answered with
    [None]. *)

Fixpoint json_skip_ws (s : string) : string :=
  match s with
  | String c r =>
      match nat_of_ascii c with
      | 9%nat | 10%nat | 13%nat | 32%nat => json_skip_ws r
      | _ => s
      end
  | EmptyString => s
  end.

Definition digit_of (c : ascii) : option Z :=
  let n := Z.of_nat (nat_of_ascii c) in
  if (48 <=? n) && (n <=? 57) then Some (n - 48) else None.

(** Reads a run of digits: the number they spell after [acc], how many
    there were, and the rest. *)
Fixpoint json_digits (s : string) (acc : Z) (count : nat) : Z * nat * string :=
  match s with
  | String c r =>
      match digit_of c with
      | Some d => json_digits r (acc * 10 + d) (S count)
      | None => (acc, count, s)
      end
  | EmptyString => (acc, count, s)
  end.

Definition json_number (s : string) : option (Q * string) :=
  let '(neg, s1) :=
    match s with
    | String "-" r => (true, r)
    | _ => (false, s)
    end in
  let '(int, n_int, s2) := json_digits s1 0 0 in
  if (n_int =? 0)%nat || ((1 <? n_int)%nat && startsWith s1 "0") then None
  else
    let frac :=
      match s2 with
      | String "." r =>
          let '(m, n, rest) := json_digits r int 0 in
          if (n =? 0)%nat then None else Some (m, Z.of_nat n, rest)
      | _ => Some (int, 0, s2)
      end in
    match frac with
    | None => None
    | Some (mant, scale, s3) =>
        let expo :=
          match s3 with
          | String c r =>
              if Ascii.eqb c "e" || Ascii.eqb c "E" then
                let '(eneg, r1) :=
                  match r with
                  | String "-" r' => (true, r')
                  | String "+" r' => (false, r')
                  | _ => (false, r)
                  end in
                let '(e, n, rest) := json_digits r1 0 0 in
                if (n =? 0)%nat then None
                else Some ((if eneg then - e else e), rest)
              else Some (0, s3)
          | EmptyString => Some (0, s3)
          end in
        match expo with
        | None => None
        | Some (e, s4) =>
            let p := e - scale in
            let m := inject_Z (if neg then - mant else mant) in
            let q := if 0 <=? p then (m * inject_Z (10 ^ p))%Q
                     else (m / inject_Z (10 ^ (- p)))%Q in
            Some (Qred q, s4)
        end
    end.

(** The characters of a string literal after its opening quote. *)
Fixpoint json_string (s : string) : option (string * string) :=
  match s with
  | EmptyString => None
  | String c r =>
      if Ascii.eqb c dquote then Some (EmptyString, r)
      else if Ascii.eqb c "\" then
        match r with
        | String e r' =>
            let unescaped :=
              if Ascii.eqb e dquote then Some dquote
              else if Ascii.eqb e "\" then Some "\"%char
              else if Ascii.eqb e "/" then Some "/"%char
              else if Ascii.eqb e "b" then Some "008"%char
              else if Ascii.eqb e "f" then Some "012"%char
              else if Ascii.eqb e "n" then Some "010"%char
              else if Ascii.eqb e "r" then Some "013"%char
              else if Ascii.eqb e "t" then Some "009"%char
              else None in
            match unescaped, json_string r' with
            | Some u, Some (str, rest) => Some (String u str, rest)
            | _, _ => None
            end
        | EmptyString => None
        end
      else if (nat_of_ascii c <? 32)%nat then None
      else
        match json_string r with
        | Some (str, rest) => Some (String c str, rest)
        | None => None
        end
  end.

Section JsonValue.

(** The parser of one value, one level of nesting down. *)
Variable parse_inner : string -> option (value * string).

(** The elements of an array after the value just read. *)
Fixpoint json_elements (fuel : nat) (s : string) (acc : list value)
  : option (list value * string) :=
  match fuel with
  | O => None
  | S fuel' =>
      match parse_inner s with
      | None => None
      | Some (v, rest) =>
          match json_skip_ws rest with
          | String "," r => json_elements fuel' r (acc ++ [v])
          | String "]" r => Some (acc ++ [v], r)
          | _ => None
          end
      end
  end.

Fixpoint json_members (fuel : nat) (s : string) (acc : list (string * value))
  : option (list (string * value) * string) :=
  match fuel with
  | O => None
  | S fuel' =>
      match json_skip_ws s with
      | String c r =>
          if Ascii.eqb c dquote then
            match json_string r with
            | None => None
            | Some (k, rest) =>
                match json_skip_ws rest with
                | String ":" r1 =>
                    match parse_inner r1 with
                    | None => None
                    | Some (v, rest1) =>
                        match json_skip_ws rest1 with
                        | String "," r2 => json_members fuel' r2 (assoc_set acc k v)
                        | String "}" r2 => Some (assoc_set acc k v, r2)
                        | _ => None
                        end
                    end
                | _ => None
                end
            end
          else None
      | EmptyString => None
      end
  end.

End JsonValue.

Fixpoint json_value (depth : nat) (s : string) : option (value * string) :=
  match depth with
  | O => None
  | S depth' =>
      let s0 := json_skip_ws s in
      let fuel := S (String.length s0) in
      match s0 with
      | String "{" r =>
          match json_skip_ws r with
          | String "}" r' => Some (VObj [], r')
          | _ =>
              match json_members (json_value depth') fuel r [] with
              | Some (props, rest) => Some (VObj props, rest)
              | None => None
              end
          end
      | String "[" r =>
          match json_skip_ws r with
          | String "]" r' => Some (VArr [], r')
          | _ =>
              match json_elements (json_value depth') fuel r [] with
              | Some (elems, rest) => Some (VArr elems, rest)
              | None => None
              end
          end
      | String c r =>
          if Ascii.eqb c dquote then
            match json_string r with
            | Some (str, rest) => Some (VStr str, rest)
            | None => None
            end
          else if startsWith s0 "true" then Some (VBool true, substring 4 (String.length s0 - 4) s0)
          else if startsWith s0 "false" then Some (VBool false, substring 5 (String.length s0 - 5) s0)
          else if startsWith s0 "null" then Some (VNull, substring 4 (String.length s0 - 4) s0)
          else
            match json_number s0 with
            | Some (q, rest) => Some (VNum q, rest)
            | None => None
            end
      | EmptyString => None
      end
  end.

(** The whole text must be one value, white space around it allowed. *)
Definition JSON_parse_ref (text : string) : option value :=
  match json_value (S (String.length text)) text with
  | Some (v, rest) =>
      match json_skip_ws rest with
      | EmptyString => Some v
      | _ => None
      end
  | None => None
  end.

(* ===================================================================== *)
(** ** Vocabulary of the statements *)
(* ===================================================================== *)

(** The section carries no usable inline score: it is not a plain object,
    or has no [score] property, or that property is [null] or
    [undefined]. *)
Definition inline_missing (sec : value) : bool :=
  match sec with
  | VObj props =>
      match assoc props "score" with
      | Some v => nullish v
      | None => true
      end
  | _ => true
  end.

(** Every character of [s] is white space. *)
Fixpoint all_ws (s : string) : bool :=
  match s with
  | EmptyString => true
  | String c r => is_ws c && all_ws r
  end.

(** The last character of a string. *)
Fixpoint last_char (s : string) : option ascii :=
  match s with
  | EmptyString => None
  | String c EmptyString => Some c
  | String _ r => last_char r
  end.

Definition first_char (s : string) : option ascii :=
  match s with
  | EmptyString => None
  | String c _ => Some c
  end.

(** The points at the indices [max 0 (i - 2)] to [i]: the trailing window
    of at most three points that ends at [i]. *)
Definition trailing_window (points : list Point) (i : nat) : list Point :=
  skipn (i - 2) (firstn (S i) points).

(** The arithmetic mean of a non-empty list. *)
Definition mean (ys : list Q) : Q := (sumQ ys / lengthQ ys)%Q.

(** The points of the visible series in the order [handleMouse] visits
    them, each with its series. *)
Definition hover_entries (series : list Series) : list (Series * Point) :=
  flat_map (fun s => map (fun p => (s, p)) (s_points s)) series.

(** What [onHover] receives for the point [p] of the series [s]. *)
Definition hover_of (s : Series) (p : Point) : Hover :=
  mkHover (s_label s) (pt_x p) (pt_y p) (pt_t p) (s_color s) (pt_id p).

Section HoverVocabulary.

Variables (height padding yMin yMax : Q).
Variable series : list Series.
Variables (mx my : Q).

(** Squared screen distance from the pointer to the point of an entry. *)
Definition entry_dist2 (e : Series * Point) : Q :=
  dist2 height padding yMin yMax series mx my (snd e).

(** The candidate [best] built for an entry. *)
Definition entry_best (e : Series * Point) : Best :=
  mkBest (hover_of (fst e) (snd e)) (entry_dist2 e).

(** One turn of the inner loop on an entry. *)
Definition entry_step (best : option Best) (e : Series * Point) : option Best :=
  hover_step height padding yMin yMax series mx my (fst e) best (snd e).

(** [best] is the candidate of the first entry seen so far whose distance
    is least. *)
Definition first_least (seen : list (Series * Point)) (best : option Best) : Prop :=
  match best with
  | None => seen = []
  | Some b =>
      exists before e after,
        seen = before ++ e :: after
        /\ b = entry_best e
        /\ (forall x, In x before -> (entry_dist2 e < entry_dist2 x)%Q)
        /\ (forall x, In x after -> (entry_dist2 e <= entry_dist2 x)%Q)
  end.

End HoverVocabulary.

(** The delta the page is meant to show for [k]: the mean of the later
    half minus the mean of the earlier half, and [0] when either half has
    no number for [k]. *)
Definition half_delta (sorted : list HistoryItem) (k : Category) : Q :=
  let half := (length sorted / 2)%nat in
  match numsOf (firstn half sorted) k, numsOf (skipn half sorted) k with
  | [], _ | _, [] => 0%Q
  | earlier, later => (mean later - mean earlier)%Q
  end.

(** What [exportCsv] reads of a record. *)
Definition exported_fields (it : HistoryItem) : Z * CreatedAt * value :=
  (it_id it, it_created_at it, it_feedback it).

(** The characters after the opening quote of a quoted cell, read back as
    RFC 4180 prescribes: two quotes stand for one, a single quote ends the
    cell and must be its last character. *)
Fixpoint read_quoted (s : string) : option string :=
  match s with
  | EmptyString => None
  | String c r =>
      if Ascii.eqb c dquote then
        match r with
        | EmptyString => Some EmptyString
        | String c2 r2 =>
            if Ascii.eqb c2 dquote
            then option_map (String dquote) (read_quoted r2)
            else None
        end
      else option_map (String c) (read_quoted r)
  end.

(** The content of a cell of the document. *)
Definition csv_read_cell (s : string) : option string :=
  match s with
  | EmptyString => Some EmptyString
  | String c r => if Ascii.eqb c dquote then read_quoted r else Some s
  end.

(** Some record of the history is dated on the local calendar day with
    day number [day]. *)
Definition has_record (LocalTZA : Z -> bool -> Z) (sorted : list HistoryItem)
  (day : Z) : bool :=
  existsb (fun it => match it_created_at it with
                     | At ms => Day (LocalTime LocalTZA ms) =? day
                     | _ => false
                     end) sorted.

(** [k] is the streak of the history at [now]: the [k] local calendar days
    ending today each have a record, and the day before them has none. *)
Definition is_calendar_streak (LocalTZA : Z -> bool -> Z) (now : Z)
  (sorted : list HistoryItem) (k : Z) : Prop :=
  let today := Day (LocalTime LocalTZA now) in
  0 <= k
  /\ (forall j, 0 <= j < k -> has_record LocalTZA sorted (today - j) = true)
  /\ has_record LocalTZA sorted (today - k) = false.

(* ===================================================================== *)
(** ** Sample data *)
(* ===================================================================== *)

(** Sample documents are written with an apostrophe where JSON has a
    double quote. *)
Fixpoint with_dquotes (s : string) : string :=
  match s with
  | EmptyString => EmptyString
  | String c r => String (if Ascii.eqb c "'" then dquote else c) (with_dquotes r)
  end.

(** A raw feedback object as the history endpoint may send it: [content] as
    a JSON-encoded string, [opening] as prose that only looks a little like
    JSON, the scores block beside them. *)
Definition raw_feedback : value :=
  VObj [("opening", VStr "not json {broken");
        ("content", VStr (with_dquotes "{'summary':'ok','score':80}"));
        ("scores", VObj [("opening", VNum 65); ("content", VNum 10)])].

(** Normalized feedback: [content] structured with an inline score and a
    scores-block entry, [delivery] as prose with a scores-block entry,
    nothing for the other categories. *)
Definition sample_feedback : value :=
  VObj [("content", VObj [("summary", VStr "ok"); ("score", VNum 80)]);
        ("delivery", VStr "steady pace");
        ("scores", VObj [("content", VNum 10); ("delivery", VNum 55)])].

(** Four points with the scores 60, 70, 80, 90. *)
Definition sample_points : list Point :=
  [mkPoint 1000 60 "t0" 11; mkPoint 2000 70 "t1" 12;
   mkPoint 3000 80 "t2" 13; mkPoint 4000 90 "t3" 14].

(** Two visible series over three time stamps; their first points
    coincide. *)
Definition sample_series : list Series :=
  [mkSeries "overall" "Overall" "#22d3ee"
     [mkPoint 1000 60 "t0" 11; mkPoint 3000 80 "t2" 13];
   mkSeries "content" "Content" "#34d399"
     [mkPoint 1000 60 "t0" 11; mkPoint 2000 40 "t1" 12]].

(** Two series whose points all share one time stamp. *)
Definition sample_series_one_stamp : list Series :=
  [mkSeries "overall" "Overall" "#22d3ee" [mkPoint 5000 60 "t" 11];
   mkSeries "content" "Content" "#34d399" [mkPoint 5000 75 "t" 11]].

(** Feedback whose scores block gives every category the same number,
    except [delivery], given inline. *)
Definition flat_feedback (flat deliv : Z) : value :=
  VObj [("delivery", VObj [("score", VNum (inject_Z deliv))]);
        ("scores", VObj [("opening", VNum (inject_Z flat));
                         ("content", VNum (inject_Z flat));
                         ("grammar", VNum (inject_Z flat));
                         ("overall", VNum (inject_Z flat))])].

(** The moment the samples are read at: 6 December 2023, 08:26:40 UTC. *)
Definition sample_now : Z := 1701851200000.

(** Four sessions on four consecutive days of November 2023; [delivery]
    goes 50, 50, 90, 90 and the other categories stay at 70. *)
Definition sample_history : list HistoryItem :=
  [mkItem 1 (Some "Hello, world") (At 1699000000000) (flat_feedback 70 50);
   mkItem 2 (Some "Second take") (At 1699086400000) (flat_feedback 70 50);
   mkItem 3 None (At 1699172800000) (flat_feedback 70 90);
   mkItem 4 None (At 1699259200000) (flat_feedback 70 90)].

(** One session, thirty days before [sample_now]. *)
Definition old_history : list HistoryItem :=
  [mkItem 7 None (At (sample_now - 30 * msPerDay)) (flat_feedback 70 64)].

(** A [visible] record that hides [content], binds [grammar] to
    [undefined] and does not mention [opening]. *)
Definition sample_visible : gmap string value :=
  <["overall" := VBool true]>
    (<["content" := VBool false]>
       (<["delivery" := VBool true]>
          (<["grammar" := VUndefined]> (empty : gmap string value)))).

(** The sample histories hold whole-number scores only, so the printer of
    fractions is never consulted; the samples run with this one. *)
Definition sample_fraction_toString : Q -> string := fun _ => EmptyString.

(** Monday 3 November 2025, 12:00 in New York (17:00 UTC), the day after
    daylight saving ended there. *)
Definition dst_now : Z := 1762189200000.

(** Two sessions: Sunday 2 November 2025 at 12:00 New York time and Monday
    3 November at 10:00. *)
Definition dst_history : list HistoryItem :=
  [mkItem 1 None (At 1762102800000) VUndefined;
   mkItem 2 None (At 1762182000000) VUndefined].

(** Sessions today, yesterday and three days ago at [sample_now] in a zone
    five hours behind UTC. *)
Definition gap_history : list HistoryItem :=
  [mkItem 1 None (At (sample_now - 3 * msPerDay)) VUndefined;
   mkItem 2 None (At (sample_now - 1 * msPerDay)) VUndefined;
   mkItem 3 None (At sample_now) VUndefined;
   mkItem 4 (Some "undated") NoDate VUndefined;
   mkItem 5 None (At (sample_now - 1000)) VUndefined].

(* ===================================================================== *)
(** ** [clamp] and the tooltip position *)
(* ===================================================================== *)

Definition Math_minQ (a b : Q) : Q := if Qle_bool a b then a else b.

(** [Math.max(a, Math.min(b, n))]. *)
Definition clamp (n a b : Q) : Q := Math_maxQ a (Math_minQ b n).

(** The [left] offset of the tooltip (lines 502-510) for the series handed
    to the chart: the page recomputes the horizontal scale with [w = 900]
    and [pad = 36] and clamps the hovered point's position to the width. *)
Definition tooltip_left (series : list Series) (hover : Hover) : Q :=
  clamp (xScale 36 series (h_x hover)) 0 900.

(* ===================================================================== *)
(** ** [insights]: best session and coach tip *)
(* ===================================================================== *)

(** An element of [scored]. *)
Record Scored : Type := mkScored {
  sc_h : HistoryItem;
  sc_overall : Q
}.

(** [scored] (lines 323-326): the records with a numeric overall score,
    sorted by descending score. *)
Definition scored (sorted : list HistoryItem) : list Scored :=
  js_sort (fun a b => (sc_overall b - sc_overall a)%Q)
    (omap (fun h => match as_number (scoreOf (it_feedback h) overall) with
                    | Some n => Some (mkScored h n)
                    | None => None
                    end) sorted).

(** [insights?.best]: [None] when [insights] is [null] or [scored] is
    empty. *)
Definition best (sorted : list HistoryItem) : option Scored :=
  if (length sorted =? 0)%nat then None else head (scored sorted).

(** [String.prototype.toLowerCase] on code units below 256: the letters
    A to Z and the accented capitals U+00C0 to U+00DE, the multiplication
    sign U+00D7 apart, move up by 32. *)
Definition lower_char (c : ascii) : ascii :=
  let n := nat_of_ascii c in
  if ((65 <=? n) && (n <=? 90) || (192 <=? n) && (n <=? 214)
      || (216 <=? n) && (n <=? 222))%nat
  then ascii_of_nat (n + 32)
  else c.

Fixpoint toLowerCase (s : string) : string :=
  match s with
  | EmptyString => EmptyString
  | String c r => String (lower_char c) (toLowerCase r)
  end.

(** What [flatMap] appends for one record: the elements of
    [h.feedback?.suggestions ?? []] when that is an array, the value itself
    otherwise. *)
Definition suggestions_of (h : HistoryItem) : list value :=
  match coalesce (js_get_opt (it_feedback h) "suggestions") (VArr []) with
  | VArr elems => elems
  | other => [other]
  end.

Definition keys2 : list string :=
  ["pauses"; "pace"; "clarity"; "fillers"; "volume"; "structure"; "eye";
   "confidence"].

Section CoachTip.

Variable fraction_toString : Q -> string.

(** [suggestions] (line 330). *)
Definition suggestions (sorted : list HistoryItem) : list value :=
  List.filter truthy (flat_map suggestions_of sorted).

(** [suggestions.join(" ").toLowerCase()]. *)
Definition suggestions_text (sorted : list HistoryItem) : string :=
  toLowerCase (join " " (map (js_String fraction_toString) (suggestions sorted))).

(** [insights?.topHint]: [None] when [insights] or the hint is [null]. *)
Definition topHint (sorted : list HistoryItem) : option string :=
  if (length sorted =? 0)%nat then None
  else if (length (suggestions sorted) =? 0)%nat then None
  else
    let text := suggestions_text sorted in
    match List.find (fun k => includes_str text k) keys2 with
    | Some hit => Some ("Focus on " ++ hit ++ ".")%string
    | None => None
    end.

End CoachTip.

(* ===================================================================== *)
(** ** The legend toggle *)
(* ===================================================================== *)

(** The update [onToggle] applies to [visible] (line 488):
    [{ ...v, [k]: !v[k] }]. *)
Definition onToggle (v : gmap string value) (k : string) : gmap string value :=
  <[k := VBool (negb (truthy (default VUndefined (v !! k))))]> v.

(* ===================================================================== *)
(** ** Vocabulary of the further statements *)
(* ===================================================================== *)

(** The records with a numeric overall score, in the order of the
    history, each with that score: [scored] before it is sorted. *)
Definition candidates (sorted : list HistoryItem) : list Scored :=
  omap (fun h => match as_number (scoreOf (it_feedback h) overall) with
                 | Some n => Some (mkScored h n)
                 | None => None
                 end) sorted.

(** The points at the indices [max 0 (i - (window - 1))] to [i]. *)
Definition window_at (points : list Point) (window : Z) (i : nat) : list Point :=
  skipn (Z.to_nat (Z.of_nat i - (window - 1))) (firstn (S i) points).

(** The record [it] is plotted for [key]: it has a date and a numeric
    resolved score. *)
Definition plotted (key : Category) (it : HistoryItem) : option Point :=
  match it_created_at it, as_number (scoreOf (it_feedback it) key) with
  | At ms, Some n => Some (mkPoint ms n (toISOString ms) (it_id it))
  | _, _ => None
  end.

(** The record [it] makes [mk] throw for [key]: its date does not parse and
    its resolved score is a number. *)
Definition throws_for (key : Category) (it : HistoryItem) : bool :=
  match it_created_at it, as_number (scoreOf (it_feedback it) key) with
  | InvalidDate, Some _ => true
  | _, _ => false
  end.

(* ===================================================================== *)
(** ** Further sample data *)
(* ===================================================================== *)

(** Three sessions with overall scores 70, 90, 90 and suggestions. *)
Definition tip_history : list HistoryItem :=
  [mkItem 1 None (At 1699000000000)
     (VObj [("suggestions", VArr [VStr "Leave more SPACE between points"]);
            ("scores", VObj [("overall", VNum 70)])]);
   mkItem 2 None (At 1699086400000)
     (VObj [("suggestions", VArr [VStr "Work on clarity"; VNull]);
            ("overall", VObj [("score", VNum 90)])]);
   mkItem 3 None (At 1699172800000)
     (VObj [("overall", VObj [("score", VNum 90)])])].

(** A history with one record whose date does not parse. *)
Definition broken_history : list HistoryItem :=
  [mkItem 1 None (At 1699000000000) (flat_feedback 70 50);
   mkItem 2 None InvalidDate (VObj [("scores", VObj [("overall", VNum 80)])])].

(* ===================================================================== *)
(** * Properties *)
(* ===================================================================== *)


(** ** Sorting *)

Lemma sort_insert_In {A : Type} (cmp : A -> A -> Q) (a x : A) (l : list A) :
  In x (sort_insert cmp a l) <-> x = a \/ In x l.
Proof.
  induction l as [|b l IH]; simpl.
  - intuition.
  - destruct (Qle_bool (cmp a b) 0); simpl; [intuition|].
    rewrite IH. intuition.
Qed.

Lemma js_sort_In {A : Type} (cmp : A -> A -> Q) (x : A) (l : list A) :
  In x (js_sort cmp l) <-> In x l.
Proof.
  induction l as [|a l IH]; simpl; [tauto|].
  rewrite sort_insert_In, IH. intuition.
Qed.

Lemma sort_insert_length {A : Type} (cmp : A -> A -> Q) (a : A) (l : list A) :
  length (sort_insert cmp a l) = S (length l).
Proof.
  induction l as [|b l IH]; simpl; [reflexivity|].
  destruct (Qle_bool (cmp a b) 0); simpl; [reflexivity | now rewrite IH].
Qed.

Lemma js_sort_length {A : Type} (cmp : A -> A -> Q) (l : list A) :
  length (js_sort cmp l) = length l.
Proof.
  induction l as [|a l IH]; simpl; [reflexivity|].
  now rewrite sort_insert_length, IH.
Qed.

Section SortHead.

Context {A : Type}.
Variable cmp : A -> A -> Q.
Variable m : A -> Q.

(** The comparator orders by descending [m]. *)
Hypothesis cmp_desc : forall a b, (cmp a b <= 0)%Q <-> (m b <= m a)%Q.

Lemma sort_insert_head (a : A) (l : list A) :
  head (sort_insert cmp a l)
  = match head l with
    | None => Some a
    | Some b => if Qle_bool (cmp a b) 0 then Some a else Some b
    end.
Proof.
  destruct l as [|b l]; [reflexivity|]. simpl.
  now destruct (Qle_bool (cmp a b) 0).
Qed.

(** The head of the sorted array is the first element of the array whose
    [m] is greatest. *)
Lemma js_sort_head_first_max (l : list A) :
  l <> [] ->
  exists before e after,
    l = before ++ e :: after
    /\ head (js_sort cmp l) = Some e
    /\ (forall x, In x before -> (m x < m e)%Q)
    /\ (forall x, In x after -> (m x <= m e)%Q).
Proof.
  induction l as [|a rest IH]; [congruence|]. intros _.
  destruct rest as [|b rest'].
  - exists [], a, []. repeat split; intros x [].
  - destruct (IH ltac:(discriminate)) as (before & e & after & Hsplit & Hhead & Hb & Ha).
    change (js_sort cmp (a :: b :: rest'))
      with (sort_insert cmp a (js_sort cmp (b :: rest'))).
    rewrite sort_insert_head, Hhead.
    destruct (Qle_bool (cmp a e) 0) eqn:E.
    + apply Qle_bool_iff, cmp_desc in E.
      exists [], a, (b :: rest'). repeat split; [intros x []|].
      intros x Hx. rewrite Hsplit in Hx. apply in_app_or in Hx.
      destruct Hx as [Hx|[<-|Hx]].
      * apply Qlt_le_weak. apply (Qlt_le_trans _ (m e)); auto.
      * exact E.
      * apply (Qle_trans _ (m e)); auto.
    + assert (Hlt : (m a < m e)%Q).
      { apply Qnot_le_lt. intros Hle. apply cmp_desc, Qle_bool_iff in Hle. congruence. }
      exists (a :: before), e, after. repeat split.
      * simpl. now rewrite Hsplit.
      * intros x [<-|Hx]; auto.
      * exact Ha.
Qed.

End SortHead.

Section SortAscending.

Context {A : Type}.
Variable stamp : A -> Z.

Local Abbreviation cmp := (fun a b : A => inject_Z (stamp a - stamp b)).

Lemma sort_insert_sorted (a : A) (l : list A) :
  StronglySorted (fun x y => stamp x <= stamp y) l ->
  StronglySorted (fun x y => stamp x <= stamp y) (sort_insert cmp a l).
Proof.
  induction l as [|b l IH]; intros Hs; simpl.
  - constructor; constructor.
  - inversion Hs as [|? ? Hl Hb]; subst.
    destruct (Qle_bool (cmp a b) 0) eqn:E.
    + apply Qle_bool_iff in E.
      change 0%Q with (inject_Z 0) in E. rewrite <- Zle_Qle in E.
      constructor; [exact Hs|]. constructor; [lia|].
      rewrite List.Forall_forall in Hb |- *. intros x Hx.
      specialize (Hb x Hx). lia.
    + assert (Hlt : stamp b < stamp a).
      { destruct (Z_lt_le_dec (stamp b) (stamp a)) as [H|H]; [exact H|].
        exfalso. assert (Hq : (cmp a b <= 0)%Q).
        { change 0%Q with (inject_Z 0). rewrite <- Zle_Qle. lia. }
        apply Qle_bool_iff in Hq. congruence. }
      constructor; [now apply IH|].
      rewrite List.Forall_forall in Hb |- *. intros x Hx.
      apply sort_insert_In in Hx. destruct Hx as [->|Hx]; [lia | auto].
Qed.

(** Sorting by the difference of two stamps orders the array by ascending
    stamp. *)
Lemma js_sort_ascending (l : list A) :
  StronglySorted (fun x y => stamp x <= stamp y) (js_sort cmp l).
Proof.
  induction l as [|a l IH]; simpl; [constructor|].
  now apply sort_insert_sorted.
Qed.

End SortAscending.

Lemma sortedOf_stamps_sorted (items : list HistoryItem) :
  Forall (fun it => it_created_at it <> InvalidDate) items ->
  StronglySorted
    (fun a b => default 0 (sort_stamp a) <= default 0 (sort_stamp b))
    (sortedOf items).
Proof.
  intros Hdated. unfold sortedOf.
  pose proof (js_sort_ascending (fun it => default 0 (sort_stamp it)) items) as H.
  cbv zeta in H.
  assert (Hcmp : forall l,
             Forall (fun it => it_created_at it <> InvalidDate) l ->
             forall a, it_created_at a <> InvalidDate ->
             sort_insert by_created_at a l
             = sort_insert (fun a b => inject_Z (default 0 (sort_stamp a)
                                                 - default 0 (sort_stamp b))) a l).
  { induction l as [|b l IH]; intros Hl a Ha; [reflexivity|].
    inversion Hl as [|? ? Hb Hl']; subst. simpl.
    assert (E : by_created_at a b
                = inject_Z (default 0 (sort_stamp a) - default 0 (sort_stamp b))).
    { unfold by_created_at, sort_stamp.
      destruct (it_created_at a), (it_created_at b); try congruence; reflexivity. }
    rewrite E. now rewrite (IH Hl' a Ha). }
  assert (Hsort : forall l,
             Forall (fun it => it_created_at it <> InvalidDate) l ->
             js_sort by_created_at l
             = js_sort (fun a b => inject_Z (default 0 (sort_stamp a)
                                             - default 0 (sort_stamp b))) l
               /\ Forall (fun it => it_created_at it <> InvalidDate)
                    (js_sort by_created_at l)).
  { induction l as [|a l IH]; intros Hl; [split; [reflexivity | constructor]|].
    inversion Hl as [|? ? Ha Hl']; subst. destruct (IH Hl') as [Heq Hall].
    simpl. split.
    - rewrite (Hcmp _ Hall a Ha). now rewrite Heq.
    - rewrite List.Forall_forall in Hall |- *. intros x Hx.
      apply sort_insert_In in Hx. destruct Hx as [->|Hx]; auto. }
  destruct (Hsort items Hdated) as [-> _]. exact H.
Qed.

Lemma sort_insert_Permutation {A : Type} (cmp : A -> A -> Q) (a : A) (l : list A) :
  Permutation (sort_insert cmp a l) (a :: l).
Proof.
  induction l as [|b l IH]; simpl; [reflexivity|].
  destruct (Qle_bool (cmp a b) 0); [reflexivity|].
  rewrite IH. apply perm_swap.
Qed.

(** Sorting rearranges the array and nothing else. *)
Lemma js_sort_Permutation {A : Type} (cmp : A -> A -> Q) (l : list A) :
  Permutation (js_sort cmp l) l.
Proof.
  induction l as [|a l IH]; simpl; [reflexivity|].
  rewrite sort_insert_Permutation. now constructor.
Qed.

(** X7. [sorted] holds the records of [items], each as often as [items]
    does, in ascending order of their time values (a record without a
    date counting as time 0) when no date is unparsable. *)
Theorem sortedOf_ascending (items : list HistoryItem) :
  Permutation (sortedOf items) items
  /\ (forall it, In it (sortedOf items) <-> In it items)
  /\ length (sortedOf items) = length items
  /\ (Forall (fun it => it_created_at it <> InvalidDate) items ->
      StronglySorted
        (fun a b => default 0 (sort_stamp a) <= default 0 (sort_stamp b))
        (sortedOf items)).
Proof.
  split; [apply js_sort_Permutation|].
  split; [intros it; apply js_sort_In|]. split; [apply js_sort_length|].
  apply sortedOf_stamps_sorted.
Qed.

Lemma sortedOf_ascending_witness :
  map it_id (sortedOf (rev sample_history)) = [1; 2; 3; 4]
  /\ StronglySorted
       (fun a b => default 0 (sort_stamp a) <= default 0 (sort_stamp b))
       (sortedOf (rev sample_history)).
Proof.
  split; [reflexivity|].
  destruct (sortedOf_ascending (rev sample_history)) as (_ & _ & _ & Hsorted).
  apply Hsorted. repeat constructor; discriminate.
Defined.



(** ** Strings *)

Lemma append_String (c : ascii) (a b : string) :
  (String c a ++ b)%string = String c (a ++ b)%string.
Proof. reflexivity. Qed.

Lemma append_Empty (b : string) : (EmptyString ++ b)%string = b.
Proof. reflexivity. Qed.

Lemma trimStart_spec (s : string) :
  exists l, s = (l ++ trimStart s)%string /\ all_ws l = true
            /\ (forall c, first_char (trimStart s) = Some c -> is_ws c = false).
Proof.
  induction s as [|c r IH]; simpl.
  - exists EmptyString. repeat split; intros; discriminate.
  - destruct (is_ws c) eqn:E.
    + destruct IH as (l & Heq & Hl & Hfirst).
      exists (String c l). rewrite append_String. simpl. rewrite E, Hl.
      split; [now f_equal | auto].
    + exists EmptyString. simpl. repeat split. intros c' [= <-]. exact E.
Qed.

Lemma trimEnd_spec (s : string) :
  exists r, s = (trimEnd s ++ r)%string /\ all_ws r = true
            /\ (forall c, last_char (trimEnd s) = Some c -> is_ws c = false)
            /\ (forall c, first_char s = Some c -> is_ws c = false ->
                          first_char (trimEnd s) = Some c).
Proof.
  induction s as [|c r IH].
  - exists EmptyString. repeat split; intros; discriminate.
  - destruct IH as (tail & Heq & Htail & Hlast & _).
    cbn [trimEnd]. destruct (trimEnd r) as [|c' r'] eqn:E.
    + rewrite append_Empty in Heq. subst tail.
      destruct (is_ws c) eqn:Ec.
      * exists (String c r). rewrite append_Empty. cbn [all_ws]. rewrite Ec, Htail.
        repeat split; try (intros; discriminate).
        intros c0 [= <-] H. congruence.
      * exists r. rewrite append_String, append_Empty.
        repeat split; auto.
        intros c0 [= <-]. exact Ec.
    + exists tail. rewrite append_String, <- Heq. repeat split; auto.
Qed.

(** [trim] removes a run of white space at each end and nothing else. *)
Lemma trim_spec (s : string) :
  exists l r, s = (l ++ trim s ++ r)%string
              /\ all_ws l = true /\ all_ws r = true
              /\ (forall c, first_char (trim s) = Some c -> is_ws c = false)
              /\ (forall c, last_char (trim s) = Some c -> is_ws c = false).
Proof.
  destruct (trimStart_spec s) as (l & Hs & Hl & Hfirst).
  destruct (trimEnd_spec (trimStart s)) as (r & Hm & Hr & Hlast & Hkeep).
  exists l, r. unfold trim. repeat split; auto.
  - now rewrite <- Hm.
  - intros c Hc. destruct (trimStart s) as [|c0 rest] eqn:E.
    + simpl in Hc. discriminate.
    + specialize (Hfirst c0 eq_refl). specialize (Hkeep c0 eq_refl Hfirst).
      rewrite Hkeep in Hc. now injection Hc as <-.
Qed.

Lemma first_char_app (a b : string) :
  first_char (a ++ b)%string
  = match first_char a with Some c => Some c | None => first_char b end.
Proof. destruct a; reflexivity. Qed.

Lemma last_char_String (c : ascii) (r : string) :
  last_char (String c r)
  = match last_char r with Some x => Some x | None => Some c end.
Proof.
  revert c. induction r as [|c' r' IH]; intros c; [reflexivity|].
  change (last_char (String c (String c' r'))) with (last_char (String c' r')).
  rewrite (IH c'). now destruct (last_char r').
Qed.

Lemma first_char_rev (s : string) : first_char (string_rev s) = last_char s.
Proof.
  induction s as [|c r IH]; [reflexivity|].
  cbn [string_rev]. rewrite first_char_app, IH, last_char_String.
  reflexivity.
Qed.

Lemma startsWith_char (s : string) (c : ascii) :
  startsWith s (String c EmptyString) = true <-> first_char s = Some c.
Proof.
  destruct s as [|c0 r]; simpl.
  - split; intros; discriminate.
  - destruct r; rewrite andb_true_r; rewrite Ascii.eqb_eq;
      split; intros H; congruence.
Qed.

Lemma endsWith_char (s : string) (c : ascii) :
  endsWith s (String c EmptyString) = true <-> last_char s = Some c.
Proof.
  unfold endsWith.
  change (string_rev (String c EmptyString)) with (String c EmptyString).
  rewrite startsWith_char. now rewrite first_char_rev.
Qed.

(** What the test of line 36 asks of the trimmed string. *)
Lemma looks_like_json_spec (s : string) :
  looks_like_json s = true <->
  (first_char s = Some "{"%char /\ last_char s = Some "}"%char)
  \/ (first_char s = Some "["%char /\ last_char s = Some "]"%char).
Proof.
  unfold looks_like_json.
  rewrite orb_true_iff, !andb_true_iff, !startsWith_char, !endsWith_char.
  reflexivity.
Qed.

(** ** The normalizer's parse step *)

(** C6. [parseMaybeJSON] returns the parsed structure exactly when its
    argument is a string whose trimmed form is wrapped in braces or in
    brackets and [JSON.parse] accepts it; when [JSON.parse] throws on such
    a string the original string comes back; every other string and every
    value that is not a string passes through unchanged.  The function is
    total: no argument makes it throw. *)
Theorem parseMaybeJSON_cases (JSON_parse : string -> option value) (v : value) :
  (forall str parsed,
      v = VStr str ->
      (first_char (trim str) = Some "{"%char /\ last_char (trim str) = Some "}"%char)
      \/ (first_char (trim str) = Some "["%char /\ last_char (trim str) = Some "]"%char) ->
      JSON_parse (trim str) = Some parsed ->
      parseMaybeJSON JSON_parse v = parsed)
  /\ (forall str,
      v = VStr str ->
      JSON_parse (trim str) = None ->
      parseMaybeJSON JSON_parse v = VStr str)
  /\ (forall str,
      v = VStr str ->
      ~ ((first_char (trim str) = Some "{"%char /\ last_char (trim str) = Some "}"%char)
         \/ (first_char (trim str) = Some "["%char /\ last_char (trim str) = Some "]"%char)) ->
      parseMaybeJSON JSON_parse v = VStr str)
  /\ ((forall str, v <> VStr str) -> parseMaybeJSON JSON_parse v = v)
  /\ (parseMaybeJSON JSON_parse v = v
      \/ exists str,
           v = VStr str
           /\ ((first_char (trim str) = Some "{"%char /\ last_char (trim str) = Some "}"%char)
               \/ (first_char (trim str) = Some "["%char
                   /\ last_char (trim str) = Some "]"%char))
           /\ JSON_parse (trim str) = Some (parseMaybeJSON JSON_parse v)).
Proof.
  repeat split.
  - intros str parsed -> Hlook Hparse. simpl.
    apply looks_like_json_spec in Hlook. now rewrite Hlook, Hparse.
  - intros str -> Hparse. simpl.
    destruct (looks_like_json (trim str)); [now rewrite Hparse | reflexivity].
  - intros str -> Hlook. simpl.
    destruct (looks_like_json (trim str)) eqn:E; [|reflexivity].
    apply looks_like_json_spec in E. contradiction.
  - intros Hns. destruct v; try reflexivity. now destruct (Hns s).
  - destruct v; try (left; reflexivity). simpl.
    destruct (looks_like_json (trim s)) eqn:L; [|left; reflexivity].
    destruct (JSON_parse (trim s)) eqn:E; [|left; reflexivity].
    right. exists s. apply looks_like_json_spec in L. auto.
Qed.

Lemma parseMaybeJSON_cases_witness :
  parseMaybeJSON JSON_parse_ref (VStr (with_dquotes " {'summary':'ok','score':80} "))
  = VObj [("summary", VStr "ok"); ("score", VNum 80)]
  /\ parseMaybeJSON JSON_parse_ref (VStr "{broken}") = VStr "{broken}"
  /\ parseMaybeJSON JSON_parse_ref (VStr "not json {broken") = VStr "not json {broken"
  /\ parseMaybeJSON JSON_parse_ref (VNum 80) = VNum 80.
Proof.
  pose proof (parseMaybeJSON_cases JSON_parse_ref
                (VStr (with_dquotes " {'summary':'ok','score':80} "))) as (H1 & _).
  pose proof (parseMaybeJSON_cases JSON_parse_ref (VStr "{broken}")) as (_ & H2 & _).
  pose proof (parseMaybeJSON_cases JSON_parse_ref (VStr "not json {broken"))
    as (_ & _ & H3 & _).
  pose proof (parseMaybeJSON_cases JSON_parse_ref (VNum 80)) as (_ & _ & _ & H4 & _).
  split; [|split; [|split]].
  - apply (H1 _ _ eq_refl); [left; split; reflexivity | reflexivity].
  - apply (H2 _ eq_refl). reflexivity.
  - apply (H3 _ eq_refl). intros [[H _]|[H _]]; discriminate H.
  - apply H4. intros str H. discriminate H.
Defined.

(** The normalizer on [raw_feedback]: [content] becomes a structured
    section whose score is 80, [opening] stays the string it was, and the
    resolved scores follow. *)
Example normalizeFeedback_sample :
  js_get (normalizeFeedback JSON_parse_ref raw_feedback) "content"
  = VObj [("summary", VStr "ok"); ("score", VNum 80)]
  /\ js_get (normalizeFeedback JSON_parse_ref raw_feedback) "opening"
     = VStr "not json {broken"
  /\ scoreOf (normalizeFeedback JSON_parse_ref raw_feedback) content = VNum 80
  /\ scoreOf (normalizeFeedback JSON_parse_ref raw_feedback) opening = VNum 65.
Proof. repeat split; reflexivity. Qed.




(** ** Objects *)

Lemma assoc_set_same (props : list (string * value)) (k : string) (x : value) :
  assoc (assoc_set props k x) k = Some x.
Proof.
  induction props as [|[k' v] rest IH]; simpl.
  - now rewrite String.eqb_refl.
  - destruct (String.eqb k' k) eqn:E; simpl; rewrite E; auto.
Qed.

Lemma assoc_set_other (props : list (string * value)) (k k' : string) (x : value) :
  k' <> k -> assoc (assoc_set props k' x) k = assoc props k.
Proof.
  intros Hne.
  induction props as [|[k0 v] rest IH]; simpl.
  - destruct (String.eqb k' k) eqn:E; auto.
    apply String.eqb_eq in E. contradiction.
  - destruct (String.eqb k0 k') eqn:E0; simpl.
    + apply String.eqb_eq in E0. subst k0.
      destruct (String.eqb k' k) eqn:E; auto.
      apply String.eqb_eq in E. contradiction.
    + now rewrite IH.
Qed.

Lemma key_name_inj (a b : Category) : key_name a = key_name b -> a = b.
Proof. destruct a, b; simpl; intros H; try reflexivity; discriminate H. Qed.

Lemma key_name_not_scores (k : Category) : key_name k <> "scores".
Proof. destruct k; discriminate. Qed.

(** ** The score resolver *)

Lemma inline_of_missing (sec : value) :
  inline_missing sec = true -> nullish (inline_of sec) = true.
Proof.
  unfold inline_missing, inline_of.
  destruct sec as [| |b|q|s|l|props]; simpl; try reflexivity.
  - destruct b; reflexivity.
  - destruct (negb (Qeq_bool q 0)); reflexivity.
  - destruct (negb (s =? "")%string); reflexivity.
  - destruct (assoc props "score"); auto.
Qed.

Lemma scoreOf_depends (fb fb' : value) (key : Category) :
  truthy fb = truthy fb' ->
  js_get fb (key_name key) = js_get fb' (key_name key) ->
  block_of fb key = block_of fb' key ->
  scoreOf fb key = scoreOf fb' key.
Proof.
  intros Ht Hs Hb. unfold scoreOf. now rewrite Ht, Hs, Hb.
Qed.

(** C1. [scoreOf] returns the inline score of a structured section that
    carries a number; without a usable inline score it returns
    [fb.scores[key]], and [null] when that is missing too or when the
    feedback itself is absent; and the answer for one category does not
    change when the section or the scores-block entry of another category
    is rewritten. *)
Theorem scoreOf_resolution (fb : value) (key : Category) :
  (forall props n,
      truthy fb = true ->
      js_get fb (key_name key) = VObj props ->
      assoc props "score" = Some (VNum n) ->
      scoreOf fb key = VNum n)
  /\ (truthy fb = true ->
      inline_missing (js_get fb (key_name key)) = true ->
      scoreOf fb key = coalesce (js_get_opt (js_get fb "scores") (key_name key)) VNull)
  /\ (truthy fb = true ->
      inline_missing (js_get fb (key_name key)) = true ->
      nullish (js_get_opt (js_get fb "scores") (key_name key)) = true ->
      scoreOf fb key = VNull)
  /\ (truthy fb = false -> scoreOf fb key = VNull)
  /\ (forall props other v,
      fb = VObj props -> other <> key ->
      scoreOf (VObj (assoc_set props (key_name other) v)) key = scoreOf fb key)
  /\ (forall props block other v,
      fb = VObj props -> assoc props "scores" = Some (VObj block) -> other <> key ->
      scoreOf (VObj (assoc_set props "scores"
                       (VObj (assoc_set block (key_name other) v)))) key
      = scoreOf fb key).
Proof.
  repeat split.
  - intros props n Ht Hsec Hscore. unfold scoreOf. rewrite Ht, Hsec. simpl.
    unfold inline_of. simpl. now rewrite Hscore.
  - intros Ht Hm. unfold scoreOf. rewrite Ht. simpl.
    apply inline_of_missing in Hm. unfold coalesce at 2. rewrite Hm.
    reflexivity.
  - intros Ht Hm Hb. unfold scoreOf. rewrite Ht. simpl.
    apply inline_of_missing in Hm. unfold coalesce, block_of. now rewrite Hm, Hb.
  - intros Ht. unfold scoreOf. now rewrite Ht.
  - intros props other v -> Hne. apply scoreOf_depends; [reflexivity | |].
    + cbn [js_get]. rewrite assoc_set_other; [reflexivity|].
      intros E. apply key_name_inj in E. contradiction.
    + unfold block_of. cbn [js_get]. rewrite assoc_set_other; [reflexivity|].
      apply key_name_not_scores.
  - intros props block other v -> Hsc Hne. apply scoreOf_depends; [reflexivity | |].
    + cbn [js_get]. rewrite assoc_set_other; [reflexivity|].
      intros E. symmetry in E. now apply key_name_not_scores in E.
    + unfold block_of. cbn [js_get]. rewrite assoc_set_same, Hsc.
      cbn [js_get_opt nullish js_get].
      rewrite assoc_set_other; [reflexivity|].
      intros E. apply key_name_inj in E. contradiction.
Qed.

Lemma scoreOf_resolution_witness :
  scoreOf sample_feedback content = VNum 80
  /\ scoreOf sample_feedback delivery = VNum 55
  /\ scoreOf sample_feedback grammar = VNull
  /\ scoreOf VUndefined content = VNull.
Proof.
  destruct (scoreOf_resolution sample_feedback content) as (Hinline & _).
  destruct (scoreOf_resolution sample_feedback delivery) as (_ & Hblock & _).
  destruct (scoreOf_resolution sample_feedback grammar) as (_ & _ & Hnone & _).
  destruct (scoreOf_resolution VUndefined content) as (_ & _ & _ & Habsent & _).
  split; [|split; [|split]].
  - apply (Hinline [("summary", VStr "ok"); ("score", VNum 80)]); reflexivity.
  - rewrite Hblock; reflexivity.
  - apply Hnone; reflexivity.
  - apply Habsent; reflexivity.
Defined.



(** ** Moving average *)

Lemma fold_left_pt_y (win : list Point) (a : Q) :
  fold_left (fun a p => (a + pt_y p)%Q) win a = fold_left Qplus (map pt_y win) a.
Proof. revert a. induction win as [|p win IH]; intros a; simpl; auto. Qed.

(** The window the loop slices at index [i] is the trailing window. *)
Lemma slice_trailing (points : list Point) (i : nat) :
  slice points (Z.to_nat (Z.max 0 (Z.of_nat i - (3 - 1)))) (i + 1)
  = trailing_window points i.
Proof.
  unfold slice, trailing_window.
  replace (Z.to_nat (Z.max 0 (Z.of_nat i - (3 - 1)))) with (i - 2)%nat by lia.
  rewrite skipn_firstn_comm. f_equal. lia.
Qed.

Lemma trailing_window_length (points : list Point) (i : nat) :
  (i < length points)%nat ->
  length (trailing_window points i) = Nat.min (i + 1) 3.
Proof.
  intros Hi. unfold trailing_window.
  rewrite List.length_skipn, List.length_firstn. lia.
Qed.

Lemma trailing_window_nth (points : list Point) (i j : nat) :
  (i < length points)%nat -> (j < Nat.min (i + 1) 3)%nat ->
  nth_error (trailing_window points i) j = nth_error points (i - 2 + j).
Proof.
  intros Hi Hj. unfold trailing_window.
  rewrite nth_error_skipn, nth_error_firstn.
  destruct (Nat.ltb_spec (i - 2 + j) (S i)); [reflexivity | lia].
Qed.

(** The point the loop pushes at index [i]. *)
Lemma movingAvg_step_at (points out : list Point) (i : nat) (p : Point) :
  nth_error points i = Some p ->
  movingAvg_step points 3 out i
  = out ++ [with_y p (mean (map pt_y (trailing_window points i)))].
Proof.
  intros Hp. unfold movingAvg_step. rewrite Hp, slice_trailing.
  unfold mean, sumQ, lengthQ. now rewrite fold_left_pt_y, length_map.
Qed.

Lemma movingAvg_loop (points : list Point) (k : nat) :
  (k <= length points)%nat ->
  let out := fold_left (movingAvg_step points 3) (seq 0 k) [] in
  length out = k
  /\ forall i p, (i < k)%nat -> nth_error points i = Some p ->
       nth_error out i
       = Some (with_y p (mean (map pt_y (trailing_window points i)))).
Proof.
  induction k as [|k IH]; intros Hk; [split; [reflexivity | lia]|].
  destruct (IH ltac:(lia)) as [Hlen Hnth]. clear IH.
  cbv zeta in *. rewrite seq_S, fold_left_app. simpl.
  set (out := fold_left (movingAvg_step points 3) (seq 0 k) []) in *.
  destruct (nth_error points k) as [pk|] eqn:Hpk.
  2:{ apply nth_error_None in Hpk. lia. }
  rewrite (movingAvg_step_at _ _ _ _ Hpk). split.
  - rewrite length_app. simpl. lia.
  - intros i p Hi Hp. destruct (Nat.eq_dec i k) as [->|Hne].
    + rewrite nth_error_app2 by lia. rewrite Hlen, Nat.sub_diag. simpl. congruence.
    + rewrite nth_error_app1 by lia. apply Hnth; [lia | exact Hp].
Qed.

Lemma movingAvg_nth (points : list Point) (i : nat) (p : Point) :
  nth_error points i = Some p ->
  nth_error (movingAvg points 3) i
  = Some (with_y p (mean (map pt_y (trailing_window points i)))).
Proof.
  intros Hp. unfold movingAvg. simpl.
  assert (Hi : (i < length points)%nat) by (apply nth_error_Some; congruence).
  now apply (movingAvg_loop points (length points) (Nat.le_refl _)).
Qed.

Lemma movingAvg_length (points : list Point) :
  length (movingAvg points 3) = length points.
Proof.
  unfold movingAvg. simpl.
  apply (movingAvg_loop points (length points) (Nat.le_refl _)).
Qed.

(** C5. Smoothing with window 3 keeps the number of points and replaces
    the [y] of the point at each index by the mean of the [y] values of the
    trailing window ending there, which holds the three points up to that
    index, or fewer at the start of the series; [x], [t] and [id] are
    untouched.  Scores 60, 70, 80, 90 smooth to 60, 65, 70, 80. *)
Theorem movingAvg_trailing_mean (points : list Point) :
  length (movingAvg points 3) = length points
  /\ (forall i p,
      nth_error points i = Some p ->
      exists p',
        nth_error (movingAvg points 3) i = Some p'
        /\ pt_x p' = pt_x p /\ pt_t p' = pt_t p /\ pt_id p' = pt_id p
        /\ pt_y p' = mean (map pt_y (trailing_window points i))
        /\ length (trailing_window points i) = Nat.min (i + 1) 3
        /\ (forall j, (j < Nat.min (i + 1) 3)%nat ->
                      nth_error (trailing_window points i) j
                      = nth_error points (i - 2 + j)))
  /\ Forall2 Qeq (map pt_y (movingAvg sample_points 3)) [60; 65; 70; 80]%Q
  /\ map (fun p => (pt_x p, pt_t p, pt_id p)) (movingAvg sample_points 3)
     = map (fun p => (pt_x p, pt_t p, pt_id p)) sample_points.
Proof.
  split; [apply movingAvg_length|]. split; [|split].
  - intros i p Hp.
    assert (Hi : (i < length points)%nat) by (apply nth_error_Some; congruence).
    eexists. split; [apply (movingAvg_nth _ _ _ Hp)|].
    repeat split.
    + now apply trailing_window_length.
    + intros j Hj. now apply trailing_window_nth.
  - repeat constructor.
  - reflexivity.
Qed.

Lemma movingAvg_trailing_mean_witness :
  exists p', nth_error (movingAvg sample_points 3) 3 = Some p'
             /\ pt_x p' = 4000 /\ (pt_y p' == 80)%Q.
Proof.
  destruct (movingAvg_trailing_mean sample_points) as (_ & H & _).
  destruct (H 3%nat (mkPoint 4000 90 "t3" 14) eq_refl)
    as (p' & Hn & Hx & _ & _ & Hy & _).
  exists p'. split; [exact Hn|]. split; [exact Hx|].
  rewrite Hy. reflexivity.
Defined.



(** ** Chart scales *)

Lemma fold_min_spec (xs : list Z) (x0 : Z) :
  let m := fold_left Z.min xs x0 in
  (m = x0 \/ In m xs) /\ m <= x0 /\ Forall (fun x => m <= x) xs.
Proof.
  revert x0. induction xs as [|x xs IH]; intros x0; simpl.
  - repeat split; auto; lia.
  - destruct (IH (Z.min x0 x)) as ([He|Hin] & Hle & Hall).
    + repeat split; [|lia|constructor; [lia|exact Hall]].
      destruct (Z.min_spec x0 x) as [[_ E]|[_ E]]; rewrite E in He;
        [left | right; left]; congruence.
    + repeat split; [auto|lia|constructor; [lia|exact Hall]].
Qed.

Lemma fold_max_spec (xs : list Z) (x0 : Z) :
  let m := fold_left Z.max xs x0 in
  (m = x0 \/ In m xs) /\ x0 <= m /\ Forall (fun x => x <= m) xs.
Proof.
  revert x0. induction xs as [|x xs IH]; intros x0; simpl.
  - repeat split; auto; lia.
  - destruct (IH (Z.max x0 x)) as ([He|Hin] & Hle & Hall).
    + repeat split; [|lia|constructor; [lia|exact Hall]].
      destruct (Z.max_spec x0 x) as [[_ E]|[_ E]]; rewrite E in He;
        [right; left | left]; congruence.
    + repeat split; [auto|lia|constructor; [lia|exact Hall]].
Qed.

Lemma Math_min_spec (xs : list Z) :
  xs <> [] -> In (Math_min xs) xs /\ Forall (fun x => Math_min xs <= x) xs.
Proof.
  destruct xs as [|x xs]; [congruence|]. intros _. unfold Math_min.
  destruct (fold_min_spec xs x) as ([He|Hin] & Hle & Hall); split.
  - left. auto.
  - constructor; auto.
  - right. exact Hin.
  - constructor; auto.
Qed.

Lemma Math_max_spec (xs : list Z) :
  xs <> [] -> In (Math_max xs) xs /\ Forall (fun x => x <= Math_max xs) xs.
Proof.
  destruct xs as [|x xs]; [congruence|]. intros _. unfold Math_max.
  destruct (fold_max_spec xs x) as ([He|Hin] & Hle & Hall); split.
  - left. auto.
  - constructor; auto.
  - right. exact Hin.
  - constructor; auto.
Qed.

Lemma Math_maxQ_ge_1 (d : Q) : (1 <= Math_maxQ 1 d)%Q.
Proof.
  unfold Math_maxQ. destruct (Qle_bool 1 d) eqn:E.
  - now apply Qle_bool_iff.
  - apply Qle_refl.
Qed.

Lemma Math_maxQ_big (d : Q) : (1 <= d)%Q -> Math_maxQ 1 d = d.
Proof.
  intros H. unfold Math_maxQ. apply Qle_bool_iff in H. now rewrite H.
Qed.

Lemma Math_maxQ_small (d : Q) : (d < 1)%Q -> Math_maxQ 1 d = 1%Q.
Proof.
  intros H. unfold Math_maxQ. destruct (Qle_bool 1 d) eqn:E; [|reflexivity].
  apply Qle_bool_iff in E. exfalso. apply (Qlt_not_le _ _ H E).
Qed.

Lemma inject_Z_ge_1 (z : Z) : 0 < z -> (1 <= inject_Z z)%Q.
Proof.
  intros H. change 1%Q with (inject_Z 1). rewrite <- Zle_Qle. lia.
Qed.

(** C9. Over a non-empty point set the horizontal scale is the linear map
    that sends the least [x] to [padding] and the greatest to
    [w - padding]; its denominator is at least 1, and is exactly 1 when all
    points share one time stamp, so the projection is a defined number for
    every [x] and no division by zero can occur. *)
Theorem xScale_linear (padding : Q) (series : list Series) :
  all_points series <> [] ->
  let xs := map pt_x (all_points series) in
  let lo := chart_minX series in
  let hi := chart_maxX series in
  (In lo xs /\ In hi xs /\ Forall (fun x => lo <= x <= hi) xs)
  /\ (1 <= Math_maxQ 1 (inject_Z (hi - lo)))%Q
  /\ (lo < hi ->
      (xScale padding series lo == padding)%Q
      /\ (xScale padding series hi == chart_w - padding)%Q
      /\ forall x,
          (xScale padding series x
           == padding + inject_Z (x - lo)
                        * ((chart_w - padding * 2) / inject_Z (hi - lo)))%Q)
  /\ (lo = hi ->
      Math_maxQ 1 (inject_Z (hi - lo)) = 1%Q
      /\ (forall x,
          (xScale padding series x
           == padding + inject_Z (x - lo) * (chart_w - padding * 2))%Q)
      /\ Forall (fun p => (xScale padding series (pt_x p) == padding)%Q)
           (all_points series)).
Proof.
  intros Hne xs lo hi.
  assert (Hxs : xs <> []).
  { unfold xs. destruct (all_points series); [congruence | discriminate]. }
  destruct (Math_min_spec xs Hxs) as [Hlo_in Hlo].
  destruct (Math_max_spec xs Hxs) as [Hhi_in Hhi].
  fold (chart_minX series) in Hlo_in, Hlo. fold (chart_maxX series) in Hhi_in, Hhi.
  fold lo in Hlo_in, Hlo. fold hi in Hhi_in, Hhi.
  assert (Hb : Forall (fun x => lo <= x <= hi) xs).
  { rewrite List.Forall_forall in *. intros x Hx. split; auto. }
  split; [auto|]. split; [apply Math_maxQ_ge_1|]. split.
  - intros Hlt.
    assert (Hd : (1 <= inject_Z (hi - lo))%Q) by (apply inject_Z_ge_1; lia).
    unfold xScale. fold lo hi. rewrite (Math_maxQ_big _ Hd).
    assert (Hnz : ~ (inject_Z (hi - lo) == 0)%Q).
    { intros E. rewrite E in Hd. unfold Qle in Hd. simpl in Hd. lia. }
    repeat split.
    + rewrite Z.sub_diag. unfold inject_Z at 1. field. exact Hnz.
    + field. exact Hnz.
    + intros x. field. exact Hnz.
  - intros Heq. rewrite <- Heq. rewrite Z.sub_diag.
    assert (Hone : Math_maxQ 1 (inject_Z 0) = 1%Q) by reflexivity.
    split; [exact Hone|].
    assert (Hx : forall x,
               (xScale padding series x
                == padding + inject_Z (x - lo) * (chart_w - padding * 2))%Q).
    { intros x. unfold xScale. fold lo hi. rewrite <- Heq, Z.sub_diag, Hone. field. }
    split; [exact Hx|].
    apply List.Forall_forall. intros p Hp. rewrite Hx.
    assert (Hpx : pt_x p = lo).
    { rewrite List.Forall_forall in Hb.
      specialize (Hb (pt_x p) (in_map pt_x _ _ Hp)). lia. }
    rewrite Hpx, Z.sub_diag. unfold inject_Z. field.
Qed.

Lemma xScale_linear_witness :
  (xScale 36 sample_series 1000 == 36)%Q
  /\ (xScale 36 sample_series 3000 == 864)%Q
  /\ (xScale 36 sample_series_one_stamp 5000 == 36)%Q.
Proof.
  destruct (xScale_linear 36 sample_series ltac:(discriminate)) as (_ & _ & Hlin & _).
  destruct (Hlin ltac:(reflexivity)) as (Hlo & Hhi & _).
  destruct (xScale_linear 36 sample_series_one_stamp ltac:(discriminate))
    as (_ & _ & _ & Hone).
  destruct (Hone ltac:(reflexivity)) as (_ & Hx & _).
  split; [exact Hlo|]. split; [exact Hhi|]. rewrite Hx. reflexivity.
Defined.



(** ** Hover resolution *)

Lemma Qlt_bool_iff (a b : Q) : Qlt_bool a b = true <-> (a < b)%Q.
Proof.
  unfold Qlt_bool. rewrite negb_true_iff. split.
  - intros H. apply Qnot_le_lt. intros Hle. apply Qle_bool_iff in Hle. congruence.
  - intros H. destruct (Qle_bool b a) eqn:E; [|reflexivity].
    apply Qle_bool_iff in E. exfalso. apply (Qlt_not_le _ _ H E).
Qed.

Lemma Qlt_bool_false (a b : Q) : Qlt_bool a b = false -> (b <= a)%Q.
Proof.
  unfold Qlt_bool. rewrite negb_false_iff. apply Qle_bool_iff.
Qed.

Section Hover.

Variables (height padding yMin yMax : Q).
Variable series : list Series.
Variables (mx my : Q).

Local Abbreviation d := (entry_dist2 height padding yMin yMax series mx my).
Local Abbreviation cand := (entry_best height padding yMin yMax series mx my).
Local Abbreviation step := (entry_step height padding yMin yMax series mx my).
Local Abbreviation first_least :=
  (first_least height padding yMin yMax series mx my).

(** The nested loops visit [hover_entries] in order. *)
Lemma nearest_flat (ss : list Series) (init : option Best) :
  fold_left
    (fun best s =>
       fold_left (hover_step height padding yMin yMax series mx my s)
         (s_points s) best) ss init
  = fold_left step (hover_entries ss) init.
Proof.
  revert init. induction ss as [|s ss IH]; intros init; [reflexivity|].
  simpl. rewrite fold_left_app, <- IH. f_equal.
  generalize (s_points s) init. clear.
  induction l as [|p l IHl]; intros init; [reflexivity|].
  simpl. apply IHl.
Qed.

Lemma step_first_least (seen : list (Series * Point)) (best : option Best)
  (x : Series * Point) :
  first_least seen best -> first_least (seen ++ [x]) (step best x).
Proof.
  destruct best as [b|]; simpl.
  - intros (before & e & after & -> & -> & Hb & Ha).
    unfold entry_step, hover_step, entry_best. cbn [b_dist2].
    fold (d x). destruct (Qlt_bool (d x) (d e)) eqn:E.
    + apply Qlt_bool_iff in E.
      exists (before ++ e :: after), x, []. repeat split.
      * intros y Hy. apply in_app_or in Hy. destruct Hy as [Hy|[<-|Hy]].
        -- apply (Qlt_trans _ (d e)); auto.
        -- exact E.
        -- apply (Qlt_le_trans _ (d e)); auto.
      * intros y [].
    + apply Qlt_bool_false in E.
      exists before, e, (after ++ [x]). repeat split.
      * now rewrite <- app_assoc.
      * exact Hb.
      * intros y Hy. apply in_app_or in Hy. destruct Hy as [Hy|[<-|[]]]; auto.
  - intros ->. exists [], x, []. repeat split; intros y [].
Qed.

Lemma fold_first_least (todo seen : list (Series * Point)) (best : option Best) :
  first_least seen best ->
  first_least (seen ++ todo) (fold_left step todo best).
Proof.
  revert seen best. induction todo as [|x todo IH]; intros seen best H.
  - now rewrite app_nil_r.
  - simpl. replace (seen ++ x :: todo) with ((seen ++ [x]) ++ todo)
      by now rewrite <- app_assoc.
    apply IH. now apply step_first_least.
Qed.

Lemma nearest_first_least :
  first_least (hover_entries series)
    (nearest height padding yMin yMax series mx my).
Proof.
  unfold nearest. rewrite nearest_flat.
  apply (fold_first_least (hover_entries series) [] None). reflexivity.
Qed.

End Hover.

Lemma hover_entries_points (series : list Series) :
  map snd (hover_entries series) = all_points series.
Proof.
  induction series as [|s ss IH]; [reflexivity|].
  unfold hover_entries, all_points in *. simpl.
  rewrite map_app, IH. f_equal.
  rewrite map_map. simpl. apply map_id.
Qed.






(** ** Category averages *)

Lemma sumQ_from (ys : list Q) (a : Q) :
  (fold_left Qplus ys a == a + sumQ ys)%Q.
Proof.
  unfold sumQ. revert a. induction ys as [|y ys IH]; intros a; simpl.
  - ring.
  - rewrite (IH (a + y)%Q), (IH (0 + y)%Q). ring.
Qed.

(** [sumQ] is the sum and [mean] the sum over the count. *)
Lemma sumQ_cons (y : Q) (ys : list Q) : (sumQ (y :: ys) == y + sumQ ys)%Q.
Proof.
  unfold sumQ at 1. simpl. rewrite sumQ_from. ring.
Qed.

Lemma mean_times_length (ys : list Q) :
  ys <> [] -> (mean ys * lengthQ ys == sumQ ys)%Q.
Proof.
  intros Hne. unfold mean. field.
  unfold lengthQ. destruct ys as [|y ys]; [congruence|].
  intros E. simpl length in E. rewrite Nat2Z.inj_succ in E.
  unfold Qeq, inject_Z in E. simpl in E. lia.
Qed.







(** ** Streak *)

Lemma includes_In (days : list Z) (ts : Z) :
  includes days ts = true <-> In ts days.
Proof.
  unfold includes. rewrite existsb_exists. split.
  - intros (x & Hx & E). apply Z.eqb_eq in E. now subst.
  - intros H. exists ts. split; [exact H | apply Z.eqb_refl].
Qed.

(** The stamps [days] holds: the local-midnight stamps of the dated
    records, except a stamp of [0]. *)
Lemma streak_days_In (LocalTZA : Z -> bool -> Z) (sorted : list HistoryItem) (ts : Z) :
  In ts (streak_days LocalTZA sorted)
  <-> ts <> 0
      /\ exists it ms, In it sorted /\ it_created_at it = At ms
                       /\ localDayStart LocalTZA ms = ts.
Proof.
  unfold streak_days. rewrite js_sort_In, <- list_elem_of_In.
  rewrite elem_of_remove_dups, list_elem_of_omap. split.
  - intros (it & Hin & Hit). apply list_elem_of_In in Hin.
    destruct (it_created_at it) as [| |ms] eqn:E; try discriminate.
    destruct (localDayStart LocalTZA ms =? 0) eqn:E0; [discriminate|].
    injection Hit as <-. apply Z.eqb_neq in E0. eauto 6.
  - intros (Hnz & it & ms & Hin & E & <-). exists it.
    split; [now apply list_elem_of_In|]. rewrite E.
    apply Z.eqb_neq in Hnz. now rewrite Hnz.
Qed.

(** What the loop counts, in any zone: the steps of 24 hours back from the
    cursor that land on a stamp of [days]. *)
Lemma streak_loop_counts (fuel : nat) (days : list Z) (cursor s r : Z) :
  streak_loop fuel days cursor s = Some r ->
  0 <= r - s
  /\ (forall j, 0 <= j < r - s -> includes days (cursor - j * msPerDay) = true)
  /\ includes days (cursor - (r - s) * msPerDay) = false.
Proof.
  revert cursor s. induction fuel as [|fuel IH]; intros cursor s; [discriminate|].
  simpl. destruct (includes days cursor) eqn:E.
  - intros H. apply IH in H. destruct H as (H0 & Hyes & Hno).
    change (24 * 3600 * 1000) with msPerDay in *.
    split; [lia|]. split.
    + intros j Hj. destruct (Z.eq_dec j 0) as [->|Hne].
      * now rewrite Z.mul_0_l, Z.sub_0_r.
      * replace (cursor - j * msPerDay)
          with (cursor - msPerDay - (j - 1) * msPerDay) by lia.
        apply Hyes. lia.
    + replace (cursor - (r - s) * msPerDay)
        with (cursor - msPerDay - (r - (s + 1)) * msPerDay) by lia.
      exact Hno.
  - intros [= <-]. rewrite Z.sub_diag. split; [lia|]. split; [lia|].
    now rewrite Z.mul_0_l, Z.sub_0_r.
Qed.

Lemma streak_loop_None (fuel : nat) (days : list Z) (cursor s : Z) :
  streak_loop fuel days cursor s = None ->
  forall j, (j < fuel)%nat ->
            includes days (cursor - Z.of_nat j * msPerDay) = true.
Proof.
  revert cursor s. induction fuel as [|fuel IH]; intros cursor s H j Hj; [lia|].
  simpl in H. destruct (includes days cursor) eqn:E; [|discriminate].
  destruct j as [|j].
  - now rewrite Z.mul_0_l, Z.sub_0_r.
  - change (24 * 3600 * 1000) with msPerDay in H.
    replace (cursor - Z.of_nat (S j) * msPerDay)
      with (cursor - msPerDay - Z.of_nat j * msPerDay) by lia.
    apply (IH _ _ H). lia.
Qed.

(** The loop reaches its [break] within [length days + 1] turns. *)
Lemma streak_loop_returns (days : list Z) (cursor s : Z) :
  exists r, streak_loop (S (length days)) days cursor s = Some r.
Proof.
  destruct (streak_loop (S (length days)) days cursor s) as [r|] eqn:E; [eauto|].
  exfalso.
  pose proof (streak_loop_None _ _ _ _ E) as Hall.
  set (steps := map (fun j => cursor - Z.of_nat j * msPerDay)
                  (seq 0 (S (length days)))).
  assert (Hnd : List.NoDup steps).
  { unfold steps. apply Finite.Injective_map_NoDup; [|apply seq_NoDup].
    intros a b Hab. unfold msPerDay in Hab. lia. }
  assert (Hincl : incl steps days).
  { intros x Hx. unfold steps in Hx. apply in_map_iff in Hx.
    destruct Hx as (j & <- & Hj). apply in_seq in Hj.
    apply includes_In. apply Hall. lia. }
  pose proof (NoDup_incl_length Hnd Hincl) as Hlen.
  unfold steps in Hlen. rewrite length_map, length_seq in Hlen. lia.
Qed.

(** [streak] always returns. *)
Lemma streak_returns (LocalTZA : Z -> bool -> Z) (now : Z) (sorted : list HistoryItem) :
  exists s, streak LocalTZA now sorted = Some s.
Proof.
  unfold streak. destruct (length sorted =? 0)%nat; [eauto|].
  destruct (length (streak_days LocalTZA sorted) =? 0)%nat; [eauto|].
  apply streak_loop_returns.
Qed.

Lemma has_record_true (LocalTZA : Z -> bool -> Z) (sorted : list HistoryItem) (day : Z) :
  has_record LocalTZA sorted day = true
  <-> exists it ms, In it sorted /\ it_created_at it = At ms
                    /\ Day (LocalTime LocalTZA ms) = day.
Proof.
  unfold has_record. rewrite existsb_exists. split.
  - intros (it & Hin & H). destruct (it_created_at it) as [| |ms] eqn:E;
      try discriminate.
    apply Z.eqb_eq in H. eauto.
  - intros (it & ms & Hin & E & H). exists it. split; [exact Hin|].
    rewrite E. now apply Z.eqb_eq.
Qed.

Section FixedOffset.

Variable offset : Z.
Variable sorted : list HistoryItem.

(** No record falls on the local day whose midnight is the epoch: its
    stamp [0] would be dropped by [filter(Boolean)]. *)
Hypothesis no_zero_stamp :
  Forall (fun it => forall ms, it_created_at it = At ms ->
                               localDayStart (tz_fixed offset) ms <> 0) sorted.

Lemma fixed_localDayStart (t : Z) :
  localDayStart (tz_fixed offset) t = Day (t + offset) * msPerDay - offset.
Proof. reflexivity. Qed.

(** In a zone of constant offset, [j] steps of 24 hours back from local
    midnight is local midnight [j] days earlier. *)
Lemma fixed_includes (now j : Z) :
  includes (streak_days (tz_fixed offset) sorted)
    (localDayStart (tz_fixed offset) now - j * msPerDay)
  = has_record (tz_fixed offset) sorted (Day (LocalTime (tz_fixed offset) now) - j).
Proof.
  apply eq_true_iff_eq.
  rewrite includes_In, streak_days_In, has_record_true.
  rewrite List.Forall_forall in no_zero_stamp.
  assert (Hstep : forall ms,
             localDayStart (tz_fixed offset) ms
             = localDayStart (tz_fixed offset) now - j * msPerDay
             <-> Day (LocalTime (tz_fixed offset) ms)
                 = Day (LocalTime (tz_fixed offset) now) - j).
  { intros ms. rewrite !fixed_localDayStart. unfold LocalTime, tz_fixed.
    unfold msPerDay. lia. }
  split.
  - intros (_ & it & ms & Hin & E & H). exists it, ms.
    repeat split; auto. now apply Hstep.
  - intros (it & ms & Hin & E & H). apply Hstep in H. split.
    + rewrite <- H. apply (no_zero_stamp it Hin ms E).
    + exists it, ms. auto.
Qed.

(** X15. Where the zone's offset never changes, [streak] returns and is
    the calendar streak: the number of consecutive local days, back from
    today, on which some record falls. *)
Lemma streak_fixed_offset (now : Z) :
  exists k, streak (tz_fixed offset) now sorted = Some k
            /\ is_calendar_streak (tz_fixed offset) now sorted k.
Proof.
  destruct (streak_returns (tz_fixed offset) now sorted) as (k & Hk).
  exists k. split; [exact Hk|].
  unfold streak in Hk. unfold is_calendar_streak. cbv zeta.
  destruct (length sorted =? 0)%nat eqn:El.
  { injection Hk as <-. apply Nat.eqb_eq in El.
    destruct sorted; [|discriminate].
    split; [lia|]. split; [intros j Hj; lia | reflexivity]. }
  destruct (length (streak_days (tz_fixed offset) sorted) =? 0)%nat eqn:Ed.
  { injection Hk as <-. apply Nat.eqb_eq in Ed.
    split; [lia|]. split; [intros j Hj; lia|].
    rewrite Z.sub_0_r.
    pose proof (fixed_includes now 0) as H. rewrite Z.mul_0_l, !Z.sub_0_r in H.
    rewrite <- H.
    destruct (streak_days (tz_fixed offset) sorted); [reflexivity | discriminate]. }
  apply streak_loop_counts in Hk. rewrite Z.sub_0_r in Hk.
  destruct Hk as (H0 & Hyes & Hno).
  split; [exact H0|]. split.
  - intros j Hj. rewrite <- fixed_includes. now apply Hyes.
  - rewrite <- fixed_includes. exact Hno.
Qed.

End FixedOffset.

(** Sessions today, yesterday and three days ago, five hours behind UTC:
    the streak the page shows is the calendar streak. *)
Lemma streak_fixed_offset_sample :
  exists k,
    streak (tz_fixed (-5 * 3600 * 1000)) sample_now gap_history = Some k
    /\ is_calendar_streak (tz_fixed (-5 * 3600 * 1000)) sample_now gap_history k.
Proof.
  apply streak_fixed_offset.
  repeat constructor; intros ms [= <-]; vm_compute; discriminate.
Defined.

(** C3, at a change of daylight saving.  In New York on Monday
    3 November 2025, the day after daylight saving ended, with sessions on
    Sunday and on Monday:
    the calendar streak is 2 (records today and yesterday, none the day
    before), and [streak] returns 1, because 24 hours before Monday's
    midnight is 01:00 on the 25-hour Sunday, which is no stamp of [days].
    In a zone fixed five hours behind UTC the same input gives 2, and
    sessions today, yesterday and three days ago give 2. *)
Theorem streak_breaks_at_dst_change :
  streak tz_new_york_2025 dst_now dst_history = Some 1
  /\ is_calendar_streak tz_new_york_2025 dst_now dst_history 2
  /\ streak_days tz_new_york_2025 dst_history = [1762056000000; 1762146000000]
  /\ localDayStart tz_new_york_2025 dst_now - 24 * 3600 * 1000 = 1762059600000
  /\ streak (tz_fixed (-5 * 3600 * 1000)) dst_now dst_history = Some 2
  /\ streak (tz_fixed (-5 * 3600 * 1000)) sample_now gap_history = Some 2.
Proof.
  split; [reflexivity|]. split.
  - unfold is_calendar_streak. cbv zeta. split; [lia|]. split.
    + intros j Hj. assert (Hc : j = 0 \/ j = 1) by lia.
      destruct Hc as [-> | ->]; reflexivity.
    + reflexivity.
  - repeat split; reflexivity.
Qed.



(** ** Most improved section *)

Lemma or_zero_Some (x : Q) : (or_zero (Some x) == x)%Q.
Proof.
  simpl. destruct (Qeq_bool x 0) eqn:E; [|reflexivity].
  apply Qeq_bool_eq in E. now rewrite E.
Qed.

Lemma delta_of_half_delta (sorted : list HistoryItem) (k : Category) :
  d_key (delta_of sorted k) = k
  /\ (d_delta (delta_of sorted k) == half_delta sorted k)%Q.
Proof.
  split; [reflexivity|].
  unfold delta_of, half_delta, slice. cbv zeta. cbn [d_delta].
  rewrite Nat.sub_0_r. change (skipn 0 sorted) with sorted.
  destruct (numsOf (firstn (length sorted / 2) sorted) k) as [|e es];
    destruct (numsOf (skipn (length sorted / 2) sorted) k) as [|l ls];
    try reflexivity.
  unfold avg. cbn [length Nat.eqb sub_nan]. apply or_zero_Some.
Qed.





(** ** CSV export *)

Lemma needs_quoting_spec (cell : string) :
  needs_quoting cell = true
  <-> exists c, In c (list_ascii_of_string cell)
                /\ (c = dquote \/ c = comma \/ c = newline).
Proof.
  induction cell as [|c r IH]; simpl.
  - split; [discriminate | intros (c & [] & _)].
  - rewrite !orb_true_iff, IH, !Ascii.eqb_eq. split.
    + intros [[[H|H]|H]|(c' & Hin & Hc)]; eauto 6.
    + intros (c' & [<-|Hin] & Hc); [tauto | eauto].
Qed.

Lemma needs_quoting_no_quote (c : ascii) (r : string) :
  needs_quoting (String c r) = false ->
  Ascii.eqb c dquote = false /\ needs_quoting r = false.
Proof.
  simpl. rewrite !orb_false_iff. tauto.
Qed.

Lemma read_quoted_double_quotes (cell : string) :
  read_quoted (double_quotes cell ++ String dquote EmptyString)%string = Some cell.
Proof.
  induction cell as [|c r IH].
  - reflexivity.
  - cbn [double_quotes]. destruct (Ascii.eqb c dquote) eqn:E.
    + apply Ascii.eqb_eq in E. subst c.
      rewrite !append_String. cbn [read_quoted].
      rewrite Ascii.eqb_refl, IH. reflexivity.
    + rewrite append_String. cbn [read_quoted]. rewrite E, IH. reflexivity.
Qed.

(** A reader of the document gets every cell back. *)
Lemma csv_cell_read_back (cell : string) :
  csv_read_cell (csv_cell cell) = Some cell.
Proof.
  unfold csv_cell. destruct (needs_quoting cell) eqn:E.
  - rewrite append_String. cbn [csv_read_cell]. rewrite Ascii.eqb_refl.
    apply read_quoted_double_quotes.
  - destruct cell as [|c r]; [reflexivity|].
    apply needs_quoting_no_quote in E. destruct E as [E _].
    cbn [csv_read_cell]. now rewrite E.
Qed.

Lemma csv_row_fields (frac : Q -> string) (a b : HistoryItem) :
  exported_fields a = exported_fields b -> csv_row frac a = csv_row frac b.
Proof.
  unfold exported_fields, csv_row. intros [= Hid Hdate Hfb].
  now rewrite Hid, Hdate, Hfb.
Qed.

Lemma csv_row_length (frac : Q -> string) (it : HistoryItem) (row : list string) :
  csv_row frac it = Some row -> length row = 7%nat.
Proof.
  unfold csv_row. destruct (it_created_at it); intros [= <-]; reflexivity.
Qed.

(** C7, for the columns the export writes.  The document has the seven
    columns id, date and the five resolved scores and no transcript column:
    histories that differ in their transcripts only export to the same
    document.  Every cell that is written and holds a comma, a double
    quote or a line feed is wrapped in double quotes with its own double
    quotes doubled, every other cell is written as it is, and a reader
    gets each cell back.  The export returns whenever no record carries an
    unparsable date. *)
Theorem exportCsv_cells_quoted (fraction_toString : Q -> string)
  (sorted : list HistoryItem) :
  (forall sorted',
      map exported_fields sorted' = map exported_fields sorted ->
      exportCsv fraction_toString sorted' = exportCsv fraction_toString sorted)
  /\ (forall csv,
      exportCsv fraction_toString sorted = Some csv ->
      exists rows,
        mapM (csv_row fraction_toString) sorted = Some rows
        /\ Forall (fun row => length row = 7%nat) rows
        /\ csv = join (String newline EmptyString)
                   (map (fun row => join "," (map csv_cell row)) (csv_header :: rows)))
  /\ (forall cell,
      (needs_quoting cell = true
       <-> exists c, In c (list_ascii_of_string cell)
                     /\ (c = dquote \/ c = comma \/ c = newline))
      /\ (needs_quoting cell = true ->
          csv_cell cell
          = String dquote (double_quotes cell ++ String dquote EmptyString))
      /\ (needs_quoting cell = false -> csv_cell cell = cell)
      /\ csv_read_cell (csv_cell cell) = Some cell)
  /\ (Forall (fun it => it_created_at it <> InvalidDate) sorted ->
      exists csv, exportCsv fraction_toString sorted = Some csv).
Proof.
  split; [|split; [|split]].
  - intros sorted' Hsame. unfold exportCsv.
    replace (mapM (csv_row fraction_toString) sorted')
      with (mapM (csv_row fraction_toString) sorted); [reflexivity|].
    revert sorted' Hsame. induction sorted as [|a l IH]; intros [|b l'] Hsame;
      try discriminate; [reflexivity|].
    cbn [map] in Hsame.
    assert (Hab : exported_fields b = exported_fields a) by congruence.
    assert (Hl : map exported_fields l' = map exported_fields l) by congruence.
    cbn [mapM].
    rewrite (csv_row_fields fraction_toString b a Hab), (IH l' Hl). reflexivity.
  - intros csv. unfold exportCsv.
    destruct (mapM (csv_row fraction_toString) sorted) as [rows|] eqn:E;
      [|discriminate].
    cbn [mbind option_bind]. intros Hcsv.
    exists rows. split; [reflexivity|]. split; [|congruence].
    apply mapM_Some in E. clear Hcsv.
    induction E as [|it row l rows Hrow _ IH]; constructor; [|exact IH].
    apply (csv_row_length _ _ _ Hrow).
  - intros cell. split; [apply needs_quoting_spec|].
    split; [|split].
    + intros H. unfold csv_cell. rewrite H. apply append_String.
    + intros H. unfold csv_cell. now rewrite H.
    + apply csv_cell_read_back.
  - intros H. unfold exportCsv.
    assert (Hrows : is_Some (mapM (csv_row fraction_toString) sorted)).
    { apply mapM_is_Some. apply List.Forall_forall.
      rewrite List.Forall_forall in H. intros it Hin. specialize (H it Hin).
      unfold compose, csv_row. destruct (it_created_at it); eauto; congruence. }
    destruct Hrows as [rows ->]. cbn [mbind option_bind]. eauto.
Qed.

Lemma exportCsv_cells_quoted_witness :
  exportCsv sample_fraction_toString
    (map (fun it => mkItem (it_id it) None (it_created_at it) (it_feedback it))
       sample_history)
  = exportCsv sample_fraction_toString sample_history.
Proof.
  destruct (exportCsv_cells_quoted sample_fraction_toString sample_history)
    as (Hsame & _).
  apply Hsame. reflexivity.
Defined.

(** The export of [sample_history], whose first record has the transcript
    [Hello, world]: no cell of the document holds the transcript, quoted or
    not. *)
Lemma exportCsv_omits_transcript :
  it_transcript (hd (mkItem 0 None NoDate VUndefined) sample_history)
  = Some "Hello, world"
  /\ exportCsv sample_fraction_toString sample_history
     = Some (join (String newline EmptyString)
               ["id,date,opening,content,delivery,grammar,overall";
                "1,2023-11-03T08:26:40.000Z,70,70,50,70,70";
                "2,2023-11-04T08:26:40.000Z,70,70,50,70,70";
                "3,2023-11-05T08:26:40.000Z,70,70,90,70,70";
                "4,2023-11-06T08:26:40.000Z,70,70,90,70,70"])
  /\ option_map (fun csv => includes_str csv (csv_cell "Hello, world"))
       (exportCsv sample_fraction_toString sample_history) = Some false
  /\ option_map (fun csv => includes_str csv "Hello")
       (exportCsv sample_fraction_toString sample_history) = Some false.
Proof.
  repeat split; vm_compute; reflexivity.
Qed.



(** ** The series builder *)

Lemma is_visible_false (visible : gmap string value) (k : string) :
  is_visible visible k = false <-> visible !! k = Some (VBool false).
Proof.
  unfold is_visible. destruct (visible !! k) as [v|]; simpl.
  - destruct v as [| |[|]| | | |]; split; intros H; try discriminate; try reflexivity;
      injection H as H; discriminate.
  - split; discriminate.
Qed.

Lemma point_of_dated (key : Category) (base : list HistoryItem) :
  Forall (fun it => it_created_at it <> InvalidDate) base ->
  exists mapped, mapM (point_of key) base = Some mapped.
Proof.
  intros H. apply mapM_is_Some. apply List.Forall_forall.
  rewrite List.Forall_forall in H. intros it Hin. specialize (H it Hin).
  unfold compose, point_of.
  destruct (it_created_at it); [| congruence |];
    destruct (as_number (scoreOf (it_feedback it) key)); eauto.
Qed.

Lemma mk_dated (base : list HistoryItem) (smooth : bool)
  (label : string) (key : Category) (color : string) :
  Forall (fun it => it_created_at it <> InvalidDate) base ->
  exists pts, mk base smooth label key color
              = Some (mkSeries (key_name key) label color pts).
Proof.
  intros H. destruct (point_of_dated key base H) as (mapped & Hm).
  unfold mk. rewrite Hm. eauto.
Qed.

Lemma in_map_filter {A B : Type} (f : A -> B) (P : B -> bool) (l : list A) (y : B) :
  In y (map f (List.filter (fun a => P (f a)) l)) <-> In y (map f l) /\ P y = true.
Proof.
  rewrite !in_map_iff. split.
  - intros (a & <- & Ha). apply filter_In in Ha. destruct Ha as [Ha HP].
    split; [exists a; auto | exact HP].
  - intros [(a & <- & Ha) HP]. exists a. split; [reflexivity|].
    apply filter_In. auto.
Qed.

Lemma NoDup_map_filter {A B : Type} (f : A -> B) (keep : A -> bool) (l : list A) :
  List.NoDup (map f l) -> List.NoDup (map f (List.filter keep l)).
Proof.
  induction l as [|a l IH]; simpl; intros H; [constructor|].
  inversion H as [|? ? Hnotin Hrest]; subst.
  destruct (keep a); [|now apply IH]. simpl. constructor; [|now apply IH].
  intros Hin. apply Hnotin. apply in_map_iff in Hin.
  destruct Hin as (x & Hx & Hin). apply filter_In in Hin.
  apply in_map_iff. exists x. tauto.
Qed.

Lemma mk_key (base : list HistoryItem) (smooth : bool)
  (label : string) (key : Category) (color : string) (s : Series) :
  mk base smooth label key color = Some s -> s_key s = key_name key.
Proof.
  unfold mk. destruct (mapM (point_of key) base); [|discriminate].
  now intros [= <-].
Qed.

(** C10. The set the series builder returns holds the series of a category
    exactly when [visible] does not bind the category's key to [false]; a
    key that is missing from [visible], or bound to [undefined], keeps its
    series; no category contributes more than one series.  The builder
    returns whenever no record carries an unparsable date. *)
Theorem basePoints_visibility (filteredItems : list HistoryItem) (smooth : bool)
  (visible : gmap string value) :
  (forall shown,
      basePoints filteredItems smooth visible = Some shown ->
      List.NoDup (map s_key shown)
      /\ (forall s, In s shown -> exists k, s_key s = key_name k)
      /\ forall k : Category,
          (In (key_name k) (map s_key shown)
           <-> visible !! key_name k <> Some (VBool false))
          /\ (visible !! key_name k = None -> In (key_name k) (map s_key shown))
          /\ (visible !! key_name k = Some VUndefined ->
              In (key_name k) (map s_key shown)))
  /\ (Forall (fun it => it_created_at it <> InvalidDate) filteredItems ->
      exists shown, basePoints filteredItems smooth visible = Some shown).
Proof.
  split.
  - intros shown. unfold basePoints. cbn [mapM].
    destruct (mk filteredItems smooth "Overall" overall "#22d3ee") as [s1|] eqn:E1;
      [|discriminate].
    destruct (mk filteredItems smooth "Opening" opening "#60a5fa") as [s2|] eqn:E2;
      [|discriminate].
    destruct (mk filteredItems smooth "Content" content "#34d399") as [s3|] eqn:E3;
      [|discriminate].
    destruct (mk filteredItems smooth "Delivery" delivery "#f472b6") as [s4|] eqn:E4;
      [|discriminate].
    destruct (mk filteredItems smooth "Grammar" grammar "#f59e0b") as [s5|] eqn:E5;
      [|discriminate].
    cbn [mbind option_bind mret option_ret fmap option_fmap option_map].
    set (five := [s1; s2; s3; s4; s5]). intros Heq.
    assert (Hs : shown
                 = List.filter (fun s => is_visible visible (s_key s)) five)
      by congruence.
    clear Heq. subst shown.
    apply mk_key in E1, E2, E3, E4, E5. simpl in E1, E2, E3, E4, E5.
    assert (Hkeys : map s_key five
                    = ["overall"; "opening"; "content"; "delivery"; "grammar"]).
    { unfold five. simpl. now rewrite E1, E2, E3, E4, E5. }
    assert (Hshown : forall k,
               In (key_name k)
                 (map s_key (List.filter (fun s => is_visible visible (s_key s)) five))
               <-> visible !! key_name k <> Some (VBool false)).
    { intros k. rewrite (in_map_filter s_key (is_visible visible)), Hkeys.
      rewrite <- is_visible_false. split.
      - intros [_ Hv]. congruence.
      - intros Hv. split; [destruct k; simpl; tauto|].
        now destruct (is_visible visible (key_name k)). }
    split.
    { apply NoDup_map_filter. rewrite Hkeys.
      repeat constructor; simpl; intuition discriminate. }
    split.
    { intros s Hs. apply filter_In in Hs. destruct Hs as [Hs _].
      simpl in Hs.
      destruct Hs as [<-|[<-|[<-|[<-|[<-|[]]]]]];
        [exists overall | exists opening | exists content
         | exists delivery | exists grammar]; assumption. }
    intros k. split; [apply Hshown|].
    split; intros Hv; apply Hshown; rewrite Hv; discriminate.
  - intros H.
    destruct (mk_dated filteredItems smooth "Overall" overall "#22d3ee" H) as (p1 & E1).
    destruct (mk_dated filteredItems smooth "Opening" opening "#60a5fa" H) as (p2 & E2).
    destruct (mk_dated filteredItems smooth "Content" content "#34d399" H) as (p3 & E3).
    destruct (mk_dated filteredItems smooth "Delivery" delivery "#f472b6" H) as (p4 & E4).
    destruct (mk_dated filteredItems smooth "Grammar" grammar "#f59e0b" H) as (p5 & E5).
    unfold basePoints. cbn [mapM]. rewrite E1, E2, E3, E4, E5.
    cbn [mbind option_bind mret option_ret fmap option_fmap option_map].
    eexists. reflexivity.
Qed.

Lemma basePoints_visibility_witness :
  exists shown,
    basePoints sample_history true sample_visible = Some shown
    /\ map s_key shown = ["overall"; "opening"; "delivery"; "grammar"]
    /\ ~ In "content" (map s_key shown).
Proof.
  destruct (basePoints_visibility sample_history true sample_visible)
    as (Hvis & Hret).
  destruct Hret as (shown & Hshown); [repeat constructor; discriminate|].
  destruct (Hvis shown Hshown) as (_ & _ & Hk).
  exists shown. split; [exact Hshown|]. split.
  - vm_compute in Hshown. injection Hshown as <-. reflexivity.
  - intros Hin. apply (Hk content) in Hin. apply Hin. reflexivity.
Defined.



(** ** Plot area *)

Lemma Math_maxQ_pos (d : Q) : (0 < Math_maxQ 1 d)%Q.
Proof.
  apply (Qlt_le_trans _ 1); [reflexivity | apply Math_maxQ_ge_1].
Qed.

(** The fraction of the range at which [x] lies is between 0 and 1 for
    every [x] between the extremes. *)
Lemma scale_fraction (lo hi x : Z) :
  lo <= x <= hi ->
  (0 <= inject_Z (x - lo) / Math_maxQ 1 (inject_Z (hi - lo)) <= 1)%Q.
Proof.
  intros [Hlo Hhi].
  pose proof (Math_maxQ_pos (inject_Z (hi - lo))) as Hpos.
  assert (H0 : (0 <= inject_Z (x - lo))%Q).
  { change 0%Q with (inject_Z 0). rewrite <- Zle_Qle. lia. }
  assert (H1 : (inject_Z (x - lo) <= Math_maxQ 1 (inject_Z (hi - lo)))%Q).
  { destruct (Z.eq_dec lo hi) as [->|Hne].
    - replace (x - hi) with 0 by lia. apply Qlt_le_weak. exact Hpos.
    - rewrite Math_maxQ_big by (apply inject_Z_ge_1; lia).
      rewrite <- Zle_Qle. lia. }
  split.
  - apply Qle_shift_div_l; [exact Hpos | lra].
  - apply Qle_shift_div_r; [exact Hpos | lra].
Qed.

Lemma xScale_point_range (padding : Q) (series : list Series) (p : Point) :
  (padding * 2 <= chart_w)%Q ->
  In p (all_points series) ->
  (padding <= xScale padding series (pt_x p) <= chart_w - padding)%Q.
Proof.
  intros Hroom Hp.
  assert (Hne : map pt_x (all_points series) <> []).
  { intros E. destruct (all_points series); [destruct Hp | discriminate]. }
  destruct (Math_min_spec _ Hne) as [_ Hlo].
  destruct (Math_max_spec _ Hne) as [_ Hhi].
  rewrite List.Forall_forall in Hlo, Hhi.
  specialize (Hlo (pt_x p) (in_map pt_x _ _ Hp)).
  specialize (Hhi (pt_x p) (in_map pt_x _ _ Hp)).
  fold (chart_minX series) in Hlo. fold (chart_maxX series) in Hhi.
  pose proof (scale_fraction _ _ _ (conj Hlo Hhi)) as Hfrac.
  unfold xScale.
  set (t := (inject_Z (pt_x p - chart_minX series)
             / Math_maxQ 1 (inject_Z (chart_maxX series - chart_minX series)))%Q)
    in *.
  split; nra.
Qed.

(** X1. Every point of the chart is drawn inside the plot area
    horizontally: when the padding leaves room ([2 * padding <= w]) the
    projection of each point's [x] lies between [padding] and
    [w - padding], and points keep their order from left to right. *)
Theorem xScale_in_plot_area (padding : Q) (series : list Series) :
  (padding * 2 <= chart_w)%Q ->
  Forall (fun p => (padding <= xScale padding series (pt_x p)
                    <= chart_w - padding)%Q) (all_points series)
  /\ (forall x1 x2, x1 <= x2 ->
        (xScale padding series x1 <= xScale padding series x2)%Q).
Proof.
  intros Hroom. split.
  - apply List.Forall_forall. intros p Hp. now apply xScale_point_range.
  - intros x1 x2 Hle. unfold xScale.
    pose proof (Math_maxQ_pos (inject_Z (chart_maxX series - chart_minX series)))
      as Hpos.
    set (d := Math_maxQ 1 (inject_Z (chart_maxX series - chart_minX series))) in *.
    assert (Hx : (inject_Z (x1 - chart_minX series)
                  <= inject_Z (x2 - chart_minX series))%Q)
      by (rewrite <- Zle_Qle; lia).
    assert (Hdiv : (inject_Z (x1 - chart_minX series) / d
                    <= inject_Z (x2 - chart_minX series) / d)%Q).
    { apply Qle_shift_div_l; [exact Hpos|].
      unfold Qdiv. rewrite <- Qmult_assoc, (Qmult_comm (/ d)), Qmult_inv_r; lra. }
    nra.
Qed.

Lemma xScale_in_plot_area_witness :
  (36 <= xScale 36 sample_series 2000 <= 864)%Q
  /\ (xScale 36 sample_series 1000 <= xScale 36 sample_series 2000)%Q.
Proof.
  destruct (xScale_in_plot_area 36 sample_series) as [Hin Hmono].
  - unfold chart_w. lra.
  - split.
    + rewrite List.Forall_forall in Hin.
      apply (Hin (mkPoint 2000 40 "t1" 12)). simpl. auto.
    + apply Hmono. lia.
Defined.

(** X2. The vertical scale is inverted and stays inside the plot area:
    with [yMax - yMin >= 1] and [2 * padding <= height] it sends [yMin] to
    the bottom edge [height - padding] and [yMax] to the top edge
    [padding], a higher score is never drawn lower, and every score
    between [yMin] and [yMax] lands between the two edges. *)
Theorem yScale_inverted (height padding yMin yMax : Q) :
  (1 <= yMax - yMin)%Q ->
  (padding * 2 <= height)%Q ->
  (yScale height padding yMin yMax yMin == height - padding)%Q
  /\ (yScale height padding yMin yMax yMax == padding)%Q
  /\ (forall y1 y2, (y1 <= y2)%Q ->
        (yScale height padding yMin yMax y2
         <= yScale height padding yMin yMax y1)%Q)
  /\ (forall y, (yMin <= y <= yMax)%Q ->
        (padding <= yScale height padding yMin yMax y <= height - padding)%Q).
Proof.
  intros Hrange Hroom. unfold yScale. rewrite (Math_maxQ_big _ Hrange).
  assert (Hnz : ~ (yMax - yMin == 0)%Q) by lra.
  assert (Hpos : (0 < yMax - yMin)%Q) by lra.
  assert (Hmono : forall y1 y2, (y1 <= y2)%Q ->
            ((y1 - yMin) / (yMax - yMin) <= (y2 - yMin) / (yMax - yMin))%Q).
  { intros y1 y2 Hle. apply Qle_shift_div_l; [exact Hpos|].
    unfold Qdiv. rewrite <- Qmult_assoc, (Qmult_comm (/ (yMax - yMin))).
    rewrite Qmult_inv_r by exact Hnz. lra. }
  assert (H0 : ((yMin - yMin) / (yMax - yMin) == 0)%Q) by (field; exact Hnz).
  assert (H1 : ((yMax - yMin) / (yMax - yMin) == 1)%Q) by (field; exact Hnz).
  split; [rewrite H0; ring|]. split; [rewrite H1; ring|]. split.
  - intros y1 y2 Hle. specialize (Hmono y1 y2 Hle). nra.
  - intros y [Hlo Hhi].
    pose proof (Hmono yMin y Hlo) as Ha. pose proof (Hmono y yMax Hhi) as Hb.
    rewrite H0 in Ha. rewrite H1 in Hb.
    set (t := ((y - yMin) / (yMax - yMin))%Q) in *. split; nra.
Qed.

Lemma yScale_inverted_witness :
  (yScale 260 36 0 100 0 == 224)%Q
  /\ (yScale 260 36 0 100 100 == 36)%Q
  /\ (36 <= yScale 260 36 0 100 60 <= 224)%Q.
Proof.
  destruct (yScale_inverted 260 36 0 100) as (Hlo & Hhi & _ & Hin).
  - lra.
  - lra.
  - split; [exact Hlo|]. split; [exact Hhi|]. apply Hin. lra.
Defined.

(** ** [clamp] and the tooltip *)

Lemma Math_minQ_spec (a b : Q) :
  (Math_minQ a b <= a)%Q /\ (Math_minQ a b <= b)%Q
  /\ (Math_minQ a b = a \/ Math_minQ a b = b).
Proof.
  unfold Math_minQ. destruct (Qle_bool a b) eqn:E.
  - apply Qle_bool_iff in E. repeat split; auto; lra.
  - assert (b < a)%Q.
    { apply Qnot_le_lt. intros H. apply Qle_bool_iff in H. congruence. }
    repeat split; auto; lra.
Qed.

Lemma Math_maxQ_spec (a b : Q) :
  (a <= Math_maxQ a b)%Q /\ (b <= Math_maxQ a b)%Q
  /\ (Math_maxQ a b = a \/ Math_maxQ a b = b).
Proof.
  unfold Math_maxQ. destruct (Qle_bool a b) eqn:E.
  - apply Qle_bool_iff in E. repeat split; auto; lra.
  - assert (b < a)%Q.
    { apply Qnot_le_lt. intros H. apply Qle_bool_iff in H. congruence. }
    repeat split; auto; lra.
Qed.

Ltac clamp_cases n a b :=
  unfold clamp;
  destruct (Math_minQ_spec b n) as (Hmin1 & Hmin2 & [Emin|Emin]);
  destruct (Math_maxQ_spec a (Math_minQ b n)) as (Hmax1 & Hmax2 & [Emax|Emax]);
  rewrite ?Emax, ?Emin in *; lra.

Lemma clamp_range (n a b : Q) : (a <= b)%Q -> (a <= clamp n a b <= b)%Q.
Proof. intros Hab. clamp_cases n a b. Qed.

Lemma clamp_inside (n a b : Q) : (a <= n <= b)%Q -> (clamp n a b == n)%Q.
Proof. intros [Ha Hb]. clamp_cases n a b. Qed.

(** X3. [clamp n a b] with [a <= b] always lies between [a] and [b], is
    [n] itself when [n] already does, is [a] below the interval and [b]
    above it, and clamping twice changes nothing more. *)
Theorem clamp_bounds (n a b : Q) :
  (a <= b)%Q ->
  (a <= clamp n a b <= b)%Q
  /\ ((a <= n <= b)%Q -> (clamp n a b == n)%Q)
  /\ ((n <= a)%Q -> (clamp n a b == a)%Q)
  /\ ((b <= n)%Q -> (clamp n a b == b)%Q)
  /\ (clamp (clamp n a b) a b == clamp n a b)%Q.
Proof.
  intros Hab.
  split; [now apply clamp_range|]. split; [apply clamp_inside|]. split; [|split].
  - intros Hn. clamp_cases n a b.
  - intros Hn. clamp_cases n a b.
  - apply clamp_inside. now apply clamp_range.
Qed.

Lemma clamp_bounds_witness :
  (clamp 950 0 900 == 900)%Q /\ (clamp (-3) 0 900 == 0)%Q
  /\ (clamp 450 0 900 == 450)%Q.
Proof.
  destruct (clamp_bounds 950 0 900 ltac:(lra)) as (_ & _ & _ & Hhi & _).
  destruct (clamp_bounds (-3) 0 900 ltac:(lra)) as (_ & _ & Hlo & _).
  destruct (clamp_bounds 450 0 900 ltac:(lra)) as (_ & Hin & _).
  split; [apply Hhi; lra|]. split; [apply Hlo; lra | apply Hin; lra].
Defined.

(** X4. The tooltip sits exactly over the hovered point: for a hover that
    [handleMouse] reports on the series the chart shows, the [left] offset
    is the point's horizontal projection, between 36 and 864, and the
    clamp to the chart width never moves it. *)
Theorem tooltip_left_on_point (series : list Series) (mx my : Q) (hover : Hover) :
  handleMouse 260 36 0 100 series mx my = Some hover ->
  (tooltip_left series hover == xScale 36 series (h_x hover))%Q
  /\ (36 <= tooltip_left series hover <= 864)%Q.
Proof.
  intros Hh. unfold handleMouse in Hh.
  pose proof (nearest_first_least 260 36 0 100 series mx my) as Hn.
  destruct (nearest 260 36 0 100 series mx my) as [b|]; [|discriminate].
  simpl in Hh. injection Hh as <-.
  destruct Hn as (before & [s p] & after & Hsplit & -> & _).
  cbn [entry_best b_hover hover_of h_x fst snd].
  assert (Hp : In p (all_points series)).
  { rewrite <- hover_entries_points, Hsplit, map_app. apply in_or_app.
    right. left. reflexivity. }
  pose proof (xScale_point_range 36 series p ltac:(unfold chart_w; lra) Hp) as Hin.
  unfold chart_w in Hin.
  assert (Hc : (tooltip_left series (hover_of s p) == xScale 36 series (pt_x p))%Q).
  { unfold tooltip_left. apply clamp_inside. cbn [hover_of h_x]. lra. }
  split; [exact Hc|]. rewrite Hc. lra.
Qed.

Lemma tooltip_left_on_point_witness :
  exists hover,
    handleMouse 260 36 0 100 sample_series 400 100 = Some hover
    /\ (36 <= tooltip_left sample_series hover <= 864)%Q.
Proof.
  eexists. split; [reflexivity|].
  apply (tooltip_left_on_point sample_series 400 100). reflexivity.
Defined.



(** ** Moving average, any window *)

Lemma slice_window_at (points : list Point) (window : Z) (i : nat) :
  slice points (Z.to_nat (Z.max 0 (Z.of_nat i - (window - 1)))) (i + 1)
  = window_at points window i.
Proof.
  unfold slice, window_at.
  replace (Z.to_nat (Z.max 0 (Z.of_nat i - (window - 1))))
    with (Z.to_nat (Z.of_nat i - (window - 1))) by lia.
  rewrite skipn_firstn_comm. f_equal. lia.
Qed.

Lemma window_at_length (points : list Point) (window : Z) (i : nat) :
  1 <= window -> (i < length points)%nat ->
  length (window_at points window i) = Nat.min (i + 1) (Z.to_nat window).
Proof.
  intros Hw Hi. unfold window_at.
  rewrite List.length_skipn, List.length_firstn. lia.
Qed.

Lemma window_at_nth (points : list Point) (window : Z) (i j : nat) :
  1 <= window -> (i < length points)%nat ->
  (j < Nat.min (i + 1) (Z.to_nat window))%nat ->
  nth_error (window_at points window i) j
  = nth_error points (i + 1 - Nat.min (i + 1) (Z.to_nat window) + j).
Proof.
  intros Hw Hi Hj. unfold window_at.
  rewrite nth_error_skipn, nth_error_firstn.
  replace (Z.to_nat (Z.of_nat i - (window - 1)) + j)%nat
    with (i + 1 - Nat.min (i + 1) (Z.to_nat window) + j)%nat by lia.
  destruct (Nat.ltb_spec (i + 1 - Nat.min (i + 1) (Z.to_nat window) + j) (S i));
    [reflexivity | lia].
Qed.


Lemma In_skipn_In {A : Type} (n : nat) (l : list A) (x : A) :
  In x (skipn n l) -> In x l.
Proof.
  intros H. rewrite <- (firstn_skipn n l). apply in_or_app. now right.
Qed.


Lemma movingAvg_step_window (points out : list Point) (window : Z) (i : nat)
  (p : Point) :
  nth_error points i = Some p ->
  movingAvg_step points window out i
  = out ++ [with_y p (mean (map pt_y (window_at points window i)))].
Proof.
  intros Hp. unfold movingAvg_step. rewrite Hp, slice_window_at.
  unfold mean, sumQ, lengthQ. now rewrite fold_left_pt_y, length_map.
Qed.

Lemma movingAvg_loop_window (points : list Point) (window : Z) (k : nat) :
  (k <= length points)%nat ->
  let out := fold_left (movingAvg_step points window) (seq 0 k) [] in
  length out = k
  /\ forall i p, (i < k)%nat -> nth_error points i = Some p ->
       nth_error out i
       = Some (with_y p (mean (map pt_y (window_at points window i)))).
Proof.
  induction k as [|k IH]; intros Hk; [split; [reflexivity | lia]|].
  destruct (IH ltac:(lia)) as [Hlen Hnth]. clear IH.
  cbv zeta in *. rewrite seq_S, fold_left_app. simpl.
  set (out := fold_left (movingAvg_step points window) (seq 0 k) []) in *.
  destruct (nth_error points k) as [pk|] eqn:Hpk.
  2:{ apply nth_error_None in Hpk. lia. }
  rewrite (movingAvg_step_window _ _ _ _ _ Hpk). split.
  - rewrite length_app. simpl. lia.
  - intros i p Hi Hp. destruct (Nat.eq_dec i k) as [->|Hne].
    + rewrite nth_error_app2 by lia. rewrite Hlen, Nat.sub_diag. simpl. congruence.
    + rewrite nth_error_app1 by lia. apply Hnth; [lia | exact Hp].
Qed.

Lemma movingAvg_window_nth (points : list Point) (window : Z) (i : nat) (p : Point) :
  2 <= window ->
  nth_error points i = Some p ->
  nth_error (movingAvg points window) i
  = Some (with_y p (mean (map pt_y (window_at points window i)))).
Proof.
  intros Hw Hp. unfold movingAvg.
  replace (window <=? 1) with false by (symmetry; apply Z.leb_gt; lia).
  assert (Hi : (i < length points)%nat) by (apply nth_error_Some; congruence).
  now apply (movingAvg_loop_window points window (length points) (Nat.le_refl _)).
Qed.

Lemma movingAvg_window_length (points : list Point) (window : Z) :
  length (movingAvg points window) = length points.
Proof.
  unfold movingAvg. destruct (window <=? 1); [reflexivity|].
  apply (movingAvg_loop_window points window (length points) (Nat.le_refl _)).
Qed.

(** X5. For every window: a window of 1 or less returns the points as they
    are; a window [w >= 2] keeps the number of points and gives the point
    at index [i] the mean of the [y] values of the [min (i + 1) w] points
    that end at [i], leaving [x], [t] and [id] alone. *)
Theorem movingAvg_any_window (points : list Point) (window : Z) :
  (window <= 1 -> movingAvg points window = points)
  /\ (2 <= window ->
      length (movingAvg points window) = length points
      /\ forall i p,
          nth_error points i = Some p ->
          exists p',
            nth_error (movingAvg points window) i = Some p'
            /\ pt_x p' = pt_x p /\ pt_t p' = pt_t p /\ pt_id p' = pt_id p
            /\ pt_y p' = mean (map pt_y (window_at points window i))
            /\ length (window_at points window i)
               = Nat.min (i + 1) (Z.to_nat window)
            /\ (forall j, (j < Nat.min (i + 1) (Z.to_nat window))%nat ->
                  nth_error (window_at points window i) j
                  = nth_error points
                      (i + 1 - Nat.min (i + 1) (Z.to_nat window) + j))).
Proof.
  split.
  - intros Hw. unfold movingAvg. apply Z.leb_le in Hw. now rewrite Hw.
  - intros Hw. split; [apply movingAvg_window_length|].
    intros i p Hp.
    assert (Hi : (i < length points)%nat) by (apply nth_error_Some; congruence).
    eexists. split; [apply (movingAvg_window_nth _ _ _ _ Hw Hp)|].
    repeat split.
    + apply window_at_length; [lia | exact Hi].
    + intros j Hj. apply window_at_nth; [lia | exact Hi | exact Hj].
Qed.

Lemma movingAvg_any_window_witness :
  movingAvg sample_points 1 = sample_points
  /\ exists p', nth_error (movingAvg sample_points 2) 3 = Some p'
                /\ (pt_y p' == 85)%Q.
Proof.
  destruct (movingAvg_any_window sample_points 1) as [Hid _].
  destruct (movingAvg_any_window sample_points 2) as [_ Hw].
  split; [apply Hid; lia|].
  destruct (Hw ltac:(lia)) as [_ Hnth].
  destruct (Hnth 3%nat (mkPoint 4000 90 "t3" 14) eq_refl)
    as (p' & Hp' & _ & _ & _ & Hy & _).
  exists p'. split; [exact Hp'|]. rewrite Hy. reflexivity.
Defined.

Lemma sumQ_bounds (ys : list Q) (lo hi : Q) :
  Forall (fun y => (lo <= y <= hi)%Q) ys ->
  (lengthQ ys * lo <= sumQ ys <= lengthQ ys * hi)%Q.
Proof.
  induction ys as [|y ys IH]; intros H.
  - unfold lengthQ, sumQ. simpl. change (inject_Z (Z.of_nat 0)) with 0%Q. split; lra.
  - inversion H as [|? ? Hy Hys]; subst. specialize (IH Hys).
    rewrite sumQ_cons.
    assert (Hl : (lengthQ (y :: ys) == 1 + lengthQ ys)%Q).
    { unfold lengthQ. simpl length. rewrite Nat2Z.inj_succ, <- Z.add_1_l.
      rewrite inject_Z_plus. reflexivity. }
    rewrite Hl. split; nra.
Qed.

(** The mean of numbers from an interval lies in the interval. *)
Lemma mean_bounds (ys : list Q) (lo hi : Q) :
  ys <> [] ->
  Forall (fun y => (lo <= y <= hi)%Q) ys ->
  (lo <= mean ys <= hi)%Q.
Proof.
  intros Hne H. pose proof (sumQ_bounds ys lo hi H) as [Hlo Hhi].
  assert (Hpos : (0 < lengthQ ys)%Q).
  { unfold lengthQ. destruct ys as [|y ys]; [congruence|].
    change 0%Q with (inject_Z 0). rewrite <- Zlt_Qlt. simpl length. lia. }
  unfold mean. split.
  - apply Qle_shift_div_l; [exact Hpos | lra].
  - apply Qle_shift_div_r; [exact Hpos | lra].
Qed.





(** ** Range filter *)

(** The test [filtered] applies to a record for a finite range. *)
Lemma filtered_finite (now : Z) (range : Range) (sorted : list HistoryItem) :
  range <> RAll ->
  filtered now range sorted
  = List.filter
      (fun it => match it_created_at it with
                 | At ms => ms >=? now - range_days range * msPerDay
                 | _ => false
                 end) sorted.
Proof.
  intros Hr. unfold msPerDay.
  destruct range; try congruence; unfold filtered, range_days;
    apply filter_ext; intros it; destruct (it_created_at it); try reflexivity;
    f_equal; lia.
Qed.

Lemma filter_sublist {A : Type} (f : A -> bool) (l : list A) :
  sublist (List.filter f l) l.
Proof.
  induction l as [|a l IH]; simpl; [constructor|].
  destruct (f a); now constructor.
Qed.

Lemma filter_sublist_implies {A : Type} (f g : A -> bool) (l : list A) :
  (forall a, f a = true -> g a = true) ->
  sublist (List.filter f l) (List.filter g l).
Proof.
  intros Hfg. induction l as [|a l IH]; simpl; [constructor|].
  destruct (f a) eqn:Ef.
  - rewrite (Hfg a Ef). now constructor.
  - destruct (g a); [now constructor | exact IH].
Qed.

(** X8. The windows are nested and keep the order of the history:
    what the 7-day window keeps is kept, in the same order, by the 30-day
    window, that by the 90-day window, and that by [all], which is the
    history itself; a record without a parsable date is in no finite
    window. *)
Theorem filtered_nested (now : Z) (sorted : list HistoryItem) :
  sublist (filtered now R7 sorted) (filtered now R30 sorted)
  /\ sublist (filtered now R30 sorted) (filtered now R90 sorted)
  /\ sublist (filtered now R90 sorted) (filtered now RAll sorted)
  /\ filtered now RAll sorted = sorted
  /\ (forall range it,
        range <> RAll -> In it (filtered now range sorted) ->
        exists ms, it_created_at it = At ms).
Proof.
  split; [|split; [|split; [|split]]].
  - rewrite !filtered_finite by discriminate.
    apply filter_sublist_implies. intros it.
    destruct (it_created_at it); try discriminate.
    unfold range_days, msPerDay. lia.
  - rewrite !filtered_finite by discriminate.
    apply filter_sublist_implies. intros it.
    destruct (it_created_at it); try discriminate.
    unfold range_days, msPerDay. lia.
  - rewrite filtered_finite by discriminate. apply filter_sublist.
  - reflexivity.
  - intros range it Hr Hin. rewrite filtered_finite in Hin by exact Hr.
    apply filter_In in Hin. destruct Hin as [_ H].
    destruct (it_created_at it); try discriminate. eauto.
Qed.

Lemma filter_suffix {A : Type} (stamp : A -> Z) (cutoff : Z) (l : list A) :
  StronglySorted (fun a b => stamp a <= stamp b) l ->
  exists k, List.filter (fun a => stamp a >=? cutoff) l = skipn k l
            /\ Forall (fun a => stamp a < cutoff) (firstn k l)
            /\ Forall (fun a => cutoff <= stamp a) (skipn k l).
Proof.
  induction l as [|a l IH]; intros Hs.
  - exists 0%nat. repeat split; constructor.
  - inversion Hs as [|? ? Hl Ha]; subst. simpl.
    destruct (stamp a >=? cutoff) eqn:E.
    + exists 0%nat. simpl. split; [|split; [constructor|]].
      * f_equal. apply forallb_filter_id. apply forallb_forall.
        rewrite List.Forall_forall in Ha. intros x Hx. specialize (Ha x Hx). lia.
      * constructor; [lia|].
        rewrite List.Forall_forall in Ha |- *. intros x Hx.
        specialize (Ha x Hx). lia.
    + destruct (IH Hl) as (k & Hk & Hbefore & Hafter).
      exists (S k). simpl. split; [exact Hk|]. split; [|exact Hafter].
      constructor; [lia | exact Hbefore].
Qed.

(** X9. On the sorted history a finite window is a tail: when no date
    is unparsable and the cutoff [now - days] lies after the epoch, the
    window drops some number [k] of the oldest records and keeps all the
    others; the dropped ones are undated or older than the cutoff, the
    kept ones are dated at or after it. *)
Theorem filtered_is_recent_tail (now : Z) (range : Range) (items : list HistoryItem) :
  range <> RAll ->
  Forall (fun it => it_created_at it <> InvalidDate) items ->
  0 < now - range_days range * msPerDay ->
  exists k,
    filtered now range (sortedOf items) = skipn k (sortedOf items)
    /\ Forall (fun it => match it_created_at it with
                         | At ms => ms < now - range_days range * msPerDay
                         | _ => True
                         end) (firstn k (sortedOf items))
    /\ Forall (fun it => exists ms, it_created_at it = At ms
                                    /\ now - range_days range * msPerDay <= ms)
         (skipn k (sortedOf items)).
Proof.
  intros Hr Hdated Hcut.
  pose proof (sortedOf_stamps_sorted items Hdated) as Hsorted.
  assert (Hvalid : Forall (fun it => it_created_at it <> InvalidDate) (sortedOf items)).
  { rewrite List.Forall_forall in Hdated |- *. intros it Hin.
    apply Hdated. unfold sortedOf in Hin. now apply js_sort_In in Hin. }
  destruct (filter_suffix (fun it => default 0 (sort_stamp it))
              (now - range_days range * msPerDay) _ Hsorted)
    as (k & Hk & Hbefore & Hafter).
  exists k. split; [|split].
  - rewrite filtered_finite by exact Hr. rewrite <- Hk.
    apply filter_ext_in. intros it Hin.
    rewrite List.Forall_forall in Hvalid. specialize (Hvalid it Hin).
    unfold sort_stamp. destruct (it_created_at it); simpl; [lia | congruence | reflexivity].
  - rewrite List.Forall_forall in Hbefore |- *. intros it Hin.
    specialize (Hbefore it Hin). unfold sort_stamp in Hbefore.
    destruct (it_created_at it); simpl in *; auto.
  - rewrite List.Forall_forall in Hafter, Hvalid |- *. intros it Hin.
    specialize (Hafter it Hin). specialize (Hvalid it (In_skipn_In _ _ _ Hin)).
    unfold sort_stamp in Hafter.
    destruct (it_created_at it) as [| |ms]; simpl in *; [lia | congruence | eauto].
Qed.

Lemma filtered_is_recent_tail_witness :
  filtered (1699259200000 + 1000) R7 (sortedOf (rev sample_history))
  = sortedOf (rev sample_history)
  /\ exists k,
      filtered (sample_now + 4 * msPerDay) R30 (sortedOf (rev sample_history))
      = skipn k (sortedOf (rev sample_history)).
Proof.
  split; [reflexivity|].
  destruct (filtered_is_recent_tail (sample_now + 4 * msPerDay) R30
              (rev sample_history)) as (k & Hk & _).
  - discriminate.
  - repeat constructor; discriminate.
  - reflexivity.
  - exists k. exact Hk.
Defined.

Lemma filtered_nested_witness :
  map it_id (filtered (1699259200000 + msPerDay * 6) R7 sample_history) = [3; 4]
  /\ sublist (filtered (1699259200000 + msPerDay * 6) R7 sample_history)
       (filtered (1699259200000 + msPerDay * 6) R30 sample_history).
Proof.
  split; [reflexivity|].
  apply (filtered_nested (1699259200000 + msPerDay * 6) sample_history).
Defined.

(** ** Totals *)

Lemma filtered_length (now : Z) (range : Range) (sorted : list HistoryItem) :
  (length (filtered now range sorted) <= length sorted)%nat.
Proof.
  destruct range; try apply filter_length_le. apply Nat.le_refl.
Qed.

(** X10. The session count shown is the size of the window, or of
    the whole history when the window is empty: it never exceeds the size
    of the history and is zero only when there is no history at all. *)
Theorem sessions_fallback (LocalTZA : Z -> bool -> Z) (now : Z) (range : Range)
  (sorted : list HistoryItem) :
  let shown := sessions (totals LocalTZA now (filtered now range sorted) sorted) in
  (filtered now range sorted <> [] -> shown = length (filtered now range sorted))
  /\ (filtered now range sorted = [] -> shown = length sorted)
  /\ (shown <= length sorted)%nat
  /\ (shown = 0%nat <-> sorted = []).
Proof.
  cbv zeta. unfold totals. cbn [sessions]. unfold base_of.
  pose proof (filtered_length now range sorted) as Hle.
  destruct (filtered now range sorted) as [|it rest] eqn:E.
  - simpl. repeat split; try congruence; try lia.
    + intros H. now apply length_zero_iff_nil.
    + intros ->. reflexivity.
  - simpl in *. repeat split; try congruence; try lia.
    intros ->. simpl in Hle. lia.
Qed.

Lemma sessions_fallback_witness :
  sessions (totals (tz_fixed 0) sample_now (filtered sample_now R7 old_history)
              old_history) = 1%nat.
Proof.
  destruct (sessions_fallback (tz_fixed 0) sample_now R7 old_history)
    as (_ & Hempty & _).
  rewrite Hempty; reflexivity.
Defined.

Lemma Qfloor_half (n : Z) : Qfloor (inject_Z n + (1 # 2)) = n.
Proof.
  pose proof (Qfloor_le (inject_Z n + (1 # 2))) as Hle.
  pose proof (Qlt_floor (inject_Z n + (1 # 2))) as Hlt.
  set (k := Qfloor (inject_Z n + (1 # 2))) in *.
  assert (H1 : (inject_Z k < inject_Z (n + 1))%Q).
  { rewrite inject_Z_plus. change (inject_Z 1) with 1%Q. lra. }
  assert (H2 : (inject_Z n < inject_Z (k + 1))%Q) by lra.
  rewrite <- Zlt_Qlt in H1, H2. lia.
Qed.

(** [Math.round] keeps a number between two integers between them. *)
Lemma Math_round_between (x : Q) (lo hi : Z) :
  (inject_Z lo <= x <= inject_Z hi)%Q -> lo <= Math_round x <= hi.
Proof.
  intros [Hlo Hhi]. unfold Math_round. split.
  - rewrite <- (Qfloor_half lo) at 1. apply Qfloor_resp_le. lra.
  - rewrite <- (Qfloor_half hi). apply Qfloor_resp_le. lra.
Qed.

(** X11. An average never leaves the range of the scores it
    averages: when every numeric resolved score of the category lies
    between the integers [lo] and [hi] (for scores, 0 and 100), so does
    the rounded average; in particular records that all score the same
    whole number average to that number. *)
Theorem getAvg_within_range (base : list HistoryItem) (key : Category) (lo hi : Z) :
  Forall (fun y => (inject_Z lo <= y <= inject_Z hi)%Q) (numsOf base key) ->
  forall r, getAvg base key = Some r -> (inject_Z lo <= r <= inject_Z hi)%Q.
Proof.
  intros Hall r. unfold getAvg.
  destruct (length base =? 0)%nat; [discriminate|].
  destruct (numsOf base key) as [|n ns] eqn:En; [discriminate|].
  simpl (length (n :: ns) =? 0)%nat. cbv iota. intros [= <-].
  fold (mean (n :: ns)).
  pose proof (mean_bounds (n :: ns) _ _ ltac:(discriminate) Hall) as [Hlo Hhi].
  destruct (Math_round_between (mean (n :: ns) * 10) (lo * 10) (hi * 10)) as [H1 H2].
  { rewrite !inject_Z_mult. change (inject_Z 10) with 10%Q. split; lra. }
  rewrite Zle_Qle in H1, H2. rewrite inject_Z_mult in H1, H2.
  change (inject_Z 10) with 10%Q in H1, H2.
  split.
  - apply Qle_shift_div_l; [reflexivity | exact H1].
  - apply Qle_shift_div_r; [reflexivity | exact H2].
Qed.

Lemma getAvg_within_range_witness :
  exists r, getAvg sample_history delivery = Some r /\ (0 <= r <= 100)%Q.
Proof.
  eexists. split; [reflexivity|].
  apply (getAvg_within_range sample_history delivery 0 100); [|reflexivity].
  change (numsOf sample_history delivery) with [50; 50; 90; 90]%Q.
  repeat (apply List.Forall_cons; [split; unfold Qle; simpl; lia|]).
  apply List.Forall_nil.
Defined.



(** ** Streak, in any zone *)

Lemma remove_dups_length (l : list Z) : (length (remove_dups l) <= length l)%nat.
Proof.
  induction l as [|x l IH]; [reflexivity|].
  cbn [remove_dups]. destruct (decide_rel _ _ _); cbn [length]; lia.
Qed.

Lemma omap_length {A B : Type} (f : A -> option B) (l : list A) :
  (length (omap f l) <= length l)%nat.
Proof.
  induction l as [|x l IH]; [reflexivity|].
  change (omap f (x :: l))
    with (match f x with Some y => y :: omap f l | None => omap f l end).
  destruct (f x); cbn [length]; lia.
Qed.

Lemma streak_days_length (LocalTZA : Z -> bool -> Z) (sorted : list HistoryItem) :
  (length (streak_days LocalTZA sorted) <= length sorted)%nat.
Proof.
  unfold streak_days. rewrite js_sort_length.
  etransitivity; [apply remove_dups_length | apply omap_length].
Qed.

(** The steps the loop counts are distinct stamps of [days]. *)
Lemma streak_loop_bound (fuel : nat) (days : list Z) (cursor s r : Z) :
  streak_loop fuel days cursor s = Some r ->
  r - s <= Z.of_nat (length days).
Proof.
  intros H. apply streak_loop_counts in H. destruct H as (H0 & Hyes & _).
  set (steps := map (fun j => cursor - Z.of_nat j * msPerDay)
                  (seq 0 (Z.to_nat (r - s)))).
  assert (Hnd : List.NoDup steps).
  { unfold steps. apply Finite.Injective_map_NoDup; [|apply seq_NoDup].
    intros a b Hab. unfold msPerDay in Hab. lia. }
  assert (Hincl : incl steps days).
  { intros x Hx. unfold steps in Hx. apply in_map_iff in Hx.
    destruct Hx as (j & <- & Hj). apply in_seq in Hj.
    apply includes_In. apply Hyes. lia. }
  pose proof (NoDup_incl_length Hnd Hincl) as Hlen.
  unfold steps in Hlen. rewrite length_map, length_seq in Hlen. lia.
Qed.

(** X12. The streak loop always ends, and the streak it returns is at
    most the number of distinct days with a record, which is at most the
    number of records. *)
Theorem streak_bounded (LocalTZA : Z -> bool -> Z) (now : Z)
  (sorted : list HistoryItem) :
  exists s,
    streak LocalTZA now sorted = Some s
    /\ 0 <= s <= Z.of_nat (length (streak_days LocalTZA sorted))
    /\ (length (streak_days LocalTZA sorted) <= length sorted)%nat.
Proof.
  destruct (streak_returns LocalTZA now sorted) as (s & Hs).
  exists s. split; [exact Hs|]. split; [|apply streak_days_length].
  unfold streak in Hs.
  destruct (length sorted =? 0)%nat; [injection Hs as <-; lia|].
  destruct (length (streak_days LocalTZA sorted) =? 0)%nat;
    [injection Hs as <-; lia|].
  pose proof (streak_loop_bound _ _ _ _ _ Hs) as Hb.
  apply streak_loop_counts in Hs. lia.
Qed.

(** X13. Without a session today the streak is 0, whatever the
    history: [streak] returns 0 exactly when local midnight of today is no
    stamp of [days], that is when no record falls on today's local
    calendar day (or today's midnight is the epoch). *)
Theorem streak_zero_without_today (LocalTZA : Z -> bool -> Z) (now : Z)
  (sorted : list HistoryItem) :
  (streak LocalTZA now sorted = Some 0
   <-> ~ In (localDayStart LocalTZA now) (streak_days LocalTZA sorted))
  /\ ((forall it ms, In it sorted -> it_created_at it = At ms ->
         localDayStart LocalTZA ms <> localDayStart LocalTZA now) ->
      streak LocalTZA now sorted = Some 0).
Proof.
  assert (Hiff : streak LocalTZA now sorted = Some 0
                 <-> ~ In (localDayStart LocalTZA now) (streak_days LocalTZA sorted)).
  { unfold streak.
    destruct (length sorted =? 0)%nat eqn:El.
    { apply Nat.eqb_eq, length_zero_iff_nil in El. subst sorted.
      split; [intros _ [] | reflexivity]. }
    destruct (length (streak_days LocalTZA sorted) =? 0)%nat eqn:Ed.
    { apply Nat.eqb_eq, length_zero_iff_nil in Ed. rewrite Ed.
      split; [intros _ [] | reflexivity]. }
    rewrite <- includes_In. cbn [streak_loop].
    destruct (includes (streak_days LocalTZA sorted) (localDayStart LocalTZA now))
      eqn:E.
    - split; [|intros H; now contradiction H].
      intros H. exfalso. apply streak_loop_counts in H. lia.
    - split; [intros _; discriminate | reflexivity]. }
  split; [exact Hiff|].
  intros Hnone. apply Hiff. intros Hin. apply streak_days_In in Hin.
  destruct Hin as (_ & it & ms & Hit & Hms & Heq). apply (Hnone it ms Hit Hms Heq).
Qed.

Lemma streak_zero_without_today_witness :
  streak (tz_fixed 0) (sample_now + 2 * msPerDay) gap_history = Some 0.
Proof.
  destruct (streak_zero_without_today (tz_fixed 0) (sample_now + 2 * msPerDay)
              gap_history) as [_ H].
  apply H. intros it ms Hin Hms.
  simpl in Hin.
  destruct Hin as [<-|[<-|[<-|[<-|[<-|[]]]]]]; simpl in Hms;
    try discriminate; injection Hms as <-; vm_compute; discriminate.
Defined.

(** The count of a finished loop is the first step that misses [days]. *)
Lemma streak_loop_same (fuel1 fuel2 : nat) (days1 days2 : list Z)
  (cursor r1 r2 : Z) :
  (forall ts, In ts days1 <-> In ts days2) ->
  streak_loop fuel1 days1 cursor 0 = Some r1 ->
  streak_loop fuel2 days2 cursor 0 = Some r2 ->
  r1 = r2.
Proof.
  intros Hsame H1 H2.
  apply streak_loop_counts in H1, H2. rewrite Z.sub_0_r in H1, H2.
  destruct H1 as (H10 & Hyes1 & Hno1). destruct H2 as (H20 & Hyes2 & Hno2).
  assert (Hinc : forall ts, includes days1 ts = includes days2 ts).
  { intros ts. apply eq_true_iff_eq. rewrite !includes_In. apply Hsame. }
  destruct (Z.lt_trichotomy r1 r2) as [Hlt|[Heq|Hgt]]; [|exact Heq|].
  - specialize (Hyes2 r1 ltac:(lia)). rewrite <- Hinc in Hyes2. congruence.
  - specialize (Hyes1 r2 ltac:(lia)). rewrite Hinc in Hyes1. congruence.
Qed.

(** X14. The streak depends on the set of recorded days only: two
    histories with the same day stamps have the same streak, so neither
    the order of the records nor a second session on a day changes it. *)
Theorem streak_same_days (LocalTZA : Z -> bool -> Z) (now : Z)
  (a b : list HistoryItem) :
  (forall ts, In ts (streak_days LocalTZA a) <-> In ts (streak_days LocalTZA b)) ->
  streak LocalTZA now a = streak LocalTZA now b.
Proof.
  intros Hsame.
  destruct (streak_returns LocalTZA now a) as (ra & Ha).
  destruct (streak_returns LocalTZA now b) as (rb & Hb).
  rewrite Ha, Hb. f_equal.
  assert (Hempty : forall l : list HistoryItem,
             (length l =? 0)%nat = true -> streak_days LocalTZA l = []).
  { intros l Hl. apply Nat.eqb_eq, length_zero_iff_nil in Hl. now subst. }
  assert (Hzero : forall l r,
             streak LocalTZA now l = Some r ->
             streak_days LocalTZA l = [] -> r = 0).
  { intros l r Hr Hd. unfold streak in Hr. rewrite Hd in Hr.
    destruct (length l =? 0)%nat; simpl in Hr; congruence. }
  destruct (streak_days LocalTZA a) as [|da la] eqn:Ea.
  - assert (Eb : streak_days LocalTZA b = []).
    { destruct (streak_days LocalTZA b) as [|db lb]; [reflexivity|].
      exfalso. apply (proj2 (Hsame db)). left. reflexivity. }
    rewrite (Hzero a ra Ha Ea), (Hzero b rb Hb Eb). reflexivity.
  - destruct (streak_days LocalTZA b) as [|db lb] eqn:Eb.
    { exfalso. apply (proj1 (Hsame da)). left. reflexivity. }
    unfold streak in Ha, Hb. rewrite Ea in Ha. rewrite Eb in Hb.
    destruct (length a =? 0)%nat eqn:La.
    { apply Hempty in La. congruence. }
    destruct (length b =? 0)%nat eqn:Lb.
    { apply Hempty in Lb. congruence. }
    cbn [length Nat.eqb] in Ha, Hb.
    apply (streak_loop_same _ _ _ _ _ _ _ Hsame Ha Hb).
Qed.

Lemma streak_same_days_witness :
  streak (tz_fixed 0) sample_now (rev gap_history ++ gap_history)
  = streak (tz_fixed 0) sample_now gap_history.
Proof.
  apply streak_same_days. intros ts.
  assert (E : streak_days (tz_fixed 0) (rev gap_history ++ gap_history)
              = streak_days (tz_fixed 0) gap_history) by reflexivity.
  rewrite E. reflexivity.
Defined.



(** ** Insights: deltas, best session, coach tip *)

Section SortDescending.

Context {A : Type}.
Variable cmp : A -> A -> Q.
Variable m : A -> Q.

Hypothesis cmp_desc : forall a b, (cmp a b <= 0)%Q <-> (m b <= m a)%Q.

Lemma sort_insert_descending (a : A) (l : list A) :
  StronglySorted (fun x y => (m y <= m x)%Q) l ->
  StronglySorted (fun x y => (m y <= m x)%Q) (sort_insert cmp a l).
Proof.
  induction l as [|b l IH]; intros Hs; simpl.
  - constructor; constructor.
  - inversion Hs as [|? ? Hl Hb]; subst.
    destruct (Qle_bool (cmp a b) 0) eqn:E.
    + apply Qle_bool_iff, cmp_desc in E.
      constructor; [exact Hs|]. constructor; [exact E|].
      rewrite List.Forall_forall in Hb |- *. intros x Hx.
      specialize (Hb x Hx). lra.
    + assert (Hlt : (m a < m b)%Q).
      { apply Qnot_le_lt. intros Hle. apply cmp_desc, Qle_bool_iff in Hle.
        congruence. }
      constructor; [now apply IH|].
      rewrite List.Forall_forall in Hb |- *. intros x Hx.
      apply sort_insert_In in Hx. destruct Hx as [->|Hx]; [lra | auto].
Qed.

Lemma js_sort_descending (l : list A) :
  StronglySorted (fun x y => (m y <= m x)%Q) (js_sort cmp l).
Proof.
  induction l as [|a l IH]; simpl; [constructor|].
  now apply sort_insert_descending.
Qed.

End SortDescending.

(** X16. [deltas] holds one entry for each of the five categories and
    no other, each with the category's half-to-half delta, in descending
    order of delta. *)
Theorem deltas_all_categories (sorted : list HistoryItem) :
  Permutation (map d_key (deltas sorted)) keys
  /\ Forall (fun e => (d_delta e == half_delta sorted (d_key e))%Q) (deltas sorted)
  /\ StronglySorted (fun a b => (d_delta b <= d_delta a)%Q) (deltas sorted).
Proof.
  unfold deltas.
  set (cmp := fun a b : Delta =>
                (or_zero (Some (d_delta b)) - or_zero (Some (d_delta a)))%Q).
  assert (Hcmp : forall a b, (cmp a b <= 0)%Q <-> (d_delta b <= d_delta a)%Q).
  { intros a b. unfold cmp. rewrite !or_zero_Some. split; intros H; lra. }
  split; [|split].
  - rewrite (js_sort_Permutation cmp (map (delta_of sorted) keys)).
    rewrite map_map. simpl. reflexivity.
  - apply List.Forall_forall. intros e He. apply js_sort_In in He.
    apply in_map_iff in He. destruct He as (k & <- & _).
    apply delta_of_half_delta.
  - apply (js_sort_descending cmp d_delta Hcmp).
Qed.

Lemma candidates_In (sorted : list HistoryItem) (e : Scored) :
  In e (candidates sorted)
  <-> In (sc_h e) sorted
      /\ scoreOf (it_feedback (sc_h e)) overall = VNum (sc_overall e).
Proof.
  unfold candidates. rewrite <- list_elem_of_In, list_elem_of_omap. split.
  - intros (h & Hh & He). apply list_elem_of_In in Hh.
    destruct (scoreOf (it_feedback h) overall) eqn:Es; try discriminate.
    simpl in He. injection He as <-. simpl. auto.
  - intros [Hin Hs]. exists (sc_h e). split; [now apply list_elem_of_In|].
    rewrite Hs. simpl. now destruct e.
Qed.

(** X17. The best session is the record with the highest numeric overall
    score, and among records that share the highest score the one that
    comes first in the history; there is none exactly when no record has
    a numeric overall score. *)
Theorem best_first_highest (sorted : list HistoryItem) :
  (best sorted = None <-> candidates sorted = [])
  /\ (forall e,
        best sorted = Some e ->
        exists before after,
          candidates sorted = before ++ e :: after
          /\ (forall x, In x before -> (sc_overall x < sc_overall e)%Q)
          /\ (forall x, In x after -> (sc_overall x <= sc_overall e)%Q)
          /\ In (sc_h e) sorted
          /\ scoreOf (it_feedback (sc_h e)) overall = VNum (sc_overall e)).
Proof.
  assert (Hcmp : forall a b : Scored,
             (sc_overall b - sc_overall a <= 0)%Q
             <-> (sc_overall b <= sc_overall a)%Q)
    by (intros a b; split; intros H; lra).
  assert (Hbest : best sorted = head (scored sorted)).
  { unfold best. destruct sorted; reflexivity. }
  rewrite Hbest. unfold scored. fold (candidates sorted).
  destruct (candidates sorted) as [|c cs] eqn:Ec.
  - split; [split; reflexivity | discriminate].
  - destruct (js_sort_head_first_max
                (fun a b : Scored => (sc_overall b - sc_overall a)%Q)
                sc_overall Hcmp (c :: cs) ltac:(discriminate))
      as (before & e & after & Hsplit & Hhead & Hb & Ha).
    rewrite Hhead. split; [split; discriminate|].
    intros e' [= <-]. exists before, after.
    split; [exact Hsplit|]. split; [exact Hb|]. split; [exact Ha|].
    apply candidates_In. rewrite Ec, Hsplit. apply in_or_app. right. now left.
Qed.

Lemma best_first_highest_witness :
  exists e, best tip_history = Some e
            /\ it_id (sc_h e) = 2 /\ (sc_overall e == 90)%Q.
Proof.
  eexists. split; [reflexivity|].
  destruct (best_first_highest tip_history) as [_ H].
  destruct (H _ eq_refl) as (before & after & _ & _ & _ & _ & _).
  split; reflexivity.
Defined.

Lemma find_first {A : Type} (f : A -> bool) (l : list A) :
  match List.find f l with
  | Some x =>
      exists before after,
        l = before ++ x :: after /\ f x = true
        /\ forall y, In y before -> f y = false
  | None => forall y, In y l -> f y = false
  end.
Proof.
  induction l as [|a l IH]; simpl; [intros y []|].
  destruct (f a) eqn:E.
  - exists [], l. repeat split; [exact E | intros y []].
  - destruct (List.find f l) as [x|].
    + destruct IH as (before & after & -> & Hx & Hb).
      exists (a :: before), after. repeat split; [exact Hx|].
      intros y [<-|Hy]; auto.
    + intros y [<-|Hy]; auto.
Qed.

(** X18. The coach tip names the first keyword, in the fixed order
    pauses, pace, clarity, fillers, volume, structure, eye, confidence,
    that occurs anywhere in the lower-cased suggestions (as a substring,
    so [space] counts for [pace]); there is no tip when there is no
    truthy suggestion or when none of the keywords occurs. *)
Theorem topHint_first_keyword (fraction_toString : Q -> string)
  (sorted : list HistoryItem) :
  (suggestions sorted = [] -> topHint fraction_toString sorted = None)
  /\ (forall hint,
        topHint fraction_toString sorted = Some hint ->
        exists before k after,
          keys2 = before ++ k :: after
          /\ hint = ("Focus on " ++ k ++ ".")%string
          /\ includes_str (suggestions_text fraction_toString sorted) k = true
          /\ forall k', In k' before ->
               includes_str (suggestions_text fraction_toString sorted) k' = false)
  /\ (suggestions sorted <> [] ->
      topHint fraction_toString sorted = None ->
      forall k, In k keys2 ->
                includes_str (suggestions_text fraction_toString sorted) k = false)
  /\ (suggestions sorted <> [] ->
      forall k, In k keys2 ->
                includes_str (suggestions_text fraction_toString sorted) k = true ->
                exists hint, topHint fraction_toString sorted = Some hint).
Proof.
  assert (Hnil : sorted = [] -> suggestions sorted = []) by (intros ->; reflexivity).
  pose proof (find_first
                (fun k => includes_str (suggestions_text fraction_toString sorted) k)
                keys2) as Hfind.
  unfold topHint.
  destruct (length sorted =? 0)%nat eqn:El.
  { apply Nat.eqb_eq, length_zero_iff_nil in El. specialize (Hnil El).
    repeat split; try discriminate; intros; congruence. }
  destruct (suggestions sorted) as [|sg rest] eqn:Es.
  { repeat split; try discriminate; intros; congruence. }
  cbn [length Nat.eqb]. cbv zeta.
  destruct (List.find _ keys2) as [hit|].
  - destruct Hfind as (before & after & Hsplit & Hhit & Hb).
    split; [discriminate|]. split; [|split; [discriminate|]].
    + intros hint [= <-]. exists before, hit, after. auto.
    + intros _ k _ _. eauto.
  - split; [discriminate|]. split; [discriminate|]. split.
    + intros _ _ k Hk. now apply Hfind.
    + intros _ k Hk Hinc. rewrite (Hfind k Hk) in Hinc. discriminate.
Qed.

Lemma topHint_first_keyword_witness :
  topHint sample_fraction_toString tip_history = Some "Focus on pace."
  /\ includes_str (suggestions_text sample_fraction_toString tip_history) "clarity"
     = true.
Proof.
  split; [|reflexivity].
  destruct (topHint_first_keyword sample_fraction_toString tip_history)
    as (_ & Hhint & _).
  destruct (Hhint _ eq_refl) as (before & k & after & _ & _ & _ & _).
  reflexivity.
Defined.



(** ** Series builder: points and failure *)

Lemma point_of_plotted (key : Category) (it : HistoryItem) :
  (throws_for key it = true -> point_of key it = None)
  /\ (throws_for key it = false -> point_of key it = Some (plotted key it)).
Proof.
  unfold throws_for, point_of, plotted.
  destruct (it_created_at it);
    destruct (as_number (scoreOf (it_feedback it) key));
    split; intros H; try discriminate; reflexivity.
Qed.

Lemma mapM_point_of (key : Category) (base : list HistoryItem) :
  match mapM (point_of key) base with
  | Some mapped =>
      omap (fun p => p) mapped = omap (plotted key) base
      /\ forall it, In it base -> throws_for key it = false
  | None => exists it, In it base /\ throws_for key it = true
  end.
Proof.
  induction base as [|it base IH]; [simpl; split; [reflexivity | intros it []]|].
  cbn [mapM]. destruct (point_of_plotted key it) as [Hthrow Hok].
  destruct (throws_for key it) eqn:Et.
  - rewrite (Hthrow eq_refl). cbn [mbind option_bind].
    exists it. split; [now left | exact Et].
  - rewrite (Hok eq_refl). cbn [mbind option_bind].
    destruct (mapM (point_of key) base) as [mapped|];
      cbn [mbind option_bind mret option_ret].
    + destruct IH as [Heq Hno]. split.
      * change (omap (plotted key) (it :: base))
          with (match plotted key it with
                | Some y => y :: omap (plotted key) base
                | None => omap (plotted key) base
                end).
        change (omap (fun p => p) (plotted key it :: mapped))
          with (match plotted key it with
                | Some y => y :: omap (fun p => p) mapped
                | None => omap (fun p => p) mapped
                end).
        now rewrite Heq.
      * intros x [<-|Hx]; auto.
    + destruct IH as (x & Hx & Ht). exists x. split; [now right | exact Ht].
Qed.

Lemma sorted_same_x (l l' : list Point) :
  map pt_x l' = map pt_x l ->
  StronglySorted (fun a b => pt_x a <= pt_x b) l ->
  StronglySorted (fun a b => pt_x a <= pt_x b) l'.
Proof.
  revert l. induction l' as [|a' l' IH]; intros l Hx Hs; [constructor|].
  destruct l as [|a l]; [discriminate|].
  injection Hx as Ha Hl. inversion Hs as [|? ? Hs' Hall]; subst.
  constructor; [now apply (IH l)|].
  rewrite List.Forall_forall in Hall |- *. intros q' Hq'.
  apply (in_map pt_x) in Hq'. rewrite Hl in Hq'. apply in_map_iff in Hq'.
  destruct Hq' as (q & Hq & Hin). specialize (Hall q Hin). lia.
Qed.

(** X19. A series returned by [mk] carries the key, label and colour it
    was asked for; its points are in ascending order of [x]; and they
    are, up to that order and up to smoothing of [y], the records of the
    base that have a date and a numeric score for the category, each once,
    with [x] the record's time value and [id] its id.  Without smoothing
    [y] is the record's score. *)
Theorem mk_points (base : list HistoryItem) (smooth : bool)
  (label : string) (key : Category) (color : string) (s : Series) :
  mk base smooth label key color = Some s ->
  s_key s = key_name key /\ s_label s = label /\ s_color s = color
  /\ StronglySorted (fun a b => pt_x a <= pt_x b) (s_points s)
  /\ Permutation (map (fun p => (pt_x p, pt_t p, pt_id p)) (s_points s))
       (map (fun p => (pt_x p, pt_t p, pt_id p)) (omap (plotted key) base))
  /\ (smooth = false -> Permutation (s_points s) (omap (plotted key) base)).
Proof.
  unfold mk. pose proof (mapM_point_of key base) as Hm.
  destruct (mapM (point_of key) base) as [mapped|]; [|discriminate].
  destruct Hm as [Heq _]. rewrite Heq. intros [= <-]. cbn [s_key s_label s_color s_points].
  set (pts := omap (plotted key) base).
  set (cmp := fun a b : Point => inject_Z (pt_x a - pt_x b)).
  pose proof (js_sort_ascending pt_x pts) as Hsorted. cbv zeta in Hsorted.
  fold cmp in Hsorted.
  pose proof (js_sort_Permutation cmp pts) as Hperm.
  split; [reflexivity|]. split; [reflexivity|]. split; [reflexivity|].
  destruct smooth.
  - assert (Hsame : map (fun p => (pt_x p, pt_t p, pt_id p))
                      (movingAvg (js_sort cmp pts) 3)
                    = map (fun p => (pt_x p, pt_t p, pt_id p)) (js_sort cmp pts)).
    { apply nth_error_ext. intros i. rewrite !nth_error_map.
      destruct (nth_error (js_sort cmp pts) i) as [p|] eqn:Hp.
      - rewrite (movingAvg_window_nth _ 3 _ _ ltac:(lia) Hp). reflexivity.
      - apply nth_error_None in Hp.
        rewrite <- (movingAvg_window_length (js_sort cmp pts) 3) in Hp.
        apply nth_error_None in Hp. now rewrite Hp. }
    split; [|split; [|discriminate]].
    + assert (Hx : map pt_x (movingAvg (js_sort cmp pts) 3)
                   = map pt_x (js_sort cmp pts)).
      { apply (f_equal (map (fun t => fst (fst t)))) in Hsame.
        rewrite !map_map in Hsame. exact Hsame. }
      apply (sorted_same_x _ _ Hx Hsorted).
    + rewrite Hsame. now apply Permutation_map.
  - split; [exact Hsorted|]. split; [now apply Permutation_map|]. intros _. exact Hperm.
Qed.

Lemma mk_points_witness :
  exists s, mk sample_history false "Delivery" delivery "#f472b6" = Some s
            /\ map pt_y (s_points s) = [50; 50; 90; 90]%Q
            /\ StronglySorted (fun a b => pt_x a <= pt_x b) (s_points s).
Proof.
  eexists. split; [reflexivity|]. split; [reflexivity|].
  apply (mk_points sample_history false "Delivery" delivery "#f472b6").
  reflexivity.
Defined.

Lemma mk_None (base : list HistoryItem) (smooth : bool)
  (label : string) (key : Category) (color : string) :
  mk base smooth label key color = None
  <-> exists it, In it base /\ throws_for key it = true.
Proof.
  unfold mk. pose proof (mapM_point_of key base) as Hm.
  destruct (mapM (point_of key) base) as [mapped|].
  - destruct Hm as [_ Hno]. split; [discriminate|].
    intros (it & Hin & Ht). rewrite (Hno it Hin) in Ht. discriminate.
  - split; [intros _; exact Hm | reflexivity].
Qed.

(** X20. The series builder fails exactly when some record has a
    date that does not parse together with a numeric score for some
    category; the [visible] record plays no part, so hiding the category
    does not avoid the failure. *)
Theorem basePoints_throws_iff (filteredItems : list HistoryItem) (smooth : bool)
  (visible : gmap string value) :
  basePoints filteredItems smooth visible = None
  <-> exists it key, In it filteredItems /\ throws_for key it = true.
Proof.
  unfold basePoints. cbn [mapM].
  pose proof (mk_None filteredItems smooth "Overall" overall "#22d3ee") as H1.
  pose proof (mk_None filteredItems smooth "Opening" opening "#60a5fa") as H2.
  pose proof (mk_None filteredItems smooth "Content" content "#34d399") as H3.
  pose proof (mk_None filteredItems smooth "Delivery" delivery "#f472b6") as H4.
  pose proof (mk_None filteredItems smooth "Grammar" grammar "#f59e0b") as H5.
  assert (Hany : (exists it key, In it filteredItems /\ throws_for key it = true)
                 <-> (exists it, In it filteredItems /\ throws_for overall it = true)
                     \/ (exists it, In it filteredItems /\ throws_for opening it = true)
                     \/ (exists it, In it filteredItems /\ throws_for content it = true)
                     \/ (exists it, In it filteredItems /\ throws_for delivery it = true)
                     \/ (exists it, In it filteredItems /\ throws_for grammar it = true)).
  { split.
    - intros (it & key & Hin & Ht). destruct key; eauto 10.
    - intros [H|[H|[H|[H|H]]]]; destruct H as (it & Hin & Ht); eauto. }
  rewrite Hany, <- H1, <- H2, <- H3, <- H4, <- H5.
  destruct (mk filteredItems smooth "Overall" overall "#22d3ee");
    destruct (mk filteredItems smooth "Opening" opening "#60a5fa");
    destruct (mk filteredItems smooth "Content" content "#34d399");
    destruct (mk filteredItems smooth "Delivery" delivery "#f472b6");
    destruct (mk filteredItems smooth "Grammar" grammar "#f59e0b");
    cbn; split; intros H; try discriminate; auto 6;
    try (destruct H as [H|[H|[H|[H|H]]]]; discriminate).
Qed.

Lemma basePoints_throws_iff_witness :
  basePoints broken_history true
    (<["overall" := VBool false]> (empty : gmap string value)) = None.
Proof.
  apply basePoints_throws_iff.
  exists (mkItem 2 None InvalidDate (VObj [("scores", VObj [("overall", VNum 80)])])).
  exists overall. split; [right; left; reflexivity | reflexivity].
Defined.

(** ** CSV export: failure *)

(** X21. The CSV export fails exactly when some record has a date
    that does not parse, whatever its scores; with every date parsable or
    absent it returns a document. *)
Theorem exportCsv_throws_iff (fraction_toString : Q -> string)
  (sorted : list HistoryItem) :
  exportCsv fraction_toString sorted = None
  <-> exists it, In it sorted /\ it_created_at it = InvalidDate.
Proof.
  unfold exportCsv.
  destruct (mapM (csv_row fraction_toString) sorted) as [rows|] eqn:E.
  - split; [discriminate|]. intros (it & Hin & Hd). exfalso.
    apply mapM_Some in E.
    assert (Hall : forall x, In x sorted ->
                             exists row, csv_row fraction_toString x = Some row).
    { clear -E. induction E as [|x row l rows Hrow _ IH]; intros y [].
      - subst. eauto.
      - auto. }
    destruct (Hall it Hin) as (row & Hrow).
    unfold csv_row in Hrow. rewrite Hd in Hrow. discriminate.
  - split; [intros _ | reflexivity].
    apply mapM_None in E. apply List.Exists_exists in E.
    destruct E as (it & Hin & Hrow). exists it. split; [exact Hin|].
    unfold csv_row in Hrow. destruct (it_created_at it); try discriminate.
    reflexivity.
Qed.

Lemma exportCsv_throws_iff_witness :
  exportCsv sample_fraction_toString broken_history = None.
Proof.
  apply exportCsv_throws_iff.
  exists (mkItem 2 None InvalidDate (VObj [("scores", VObj [("overall", VNum 80)])])).
  split; [right; left; reflexivity | reflexivity].
Defined.



(** ** Normalizer and resolver together *)

Lemma key_name_cases (k : string) :
  (exists c, k = key_name c) \/ (forall c, k <> key_name c).
Proof.
  destruct (String.eqb_spec k "opening") as [->|H1]; [left; now exists opening|].
  destruct (String.eqb_spec k "content") as [->|H2]; [left; now exists content|].
  destruct (String.eqb_spec k "delivery") as [->|H3]; [left; now exists delivery|].
  destruct (String.eqb_spec k "grammar") as [->|H4]; [left; now exists grammar|].
  destruct (String.eqb_spec k "overall") as [->|H5]; [left; now exists overall|].
  right. intros []; simpl; congruence.
Qed.

(** The fields of a normalized plain-object feedback. *)
Lemma normalizeFeedback_get (JSON_parse : string -> option value)
  (props : list (string * value)) :
  (forall c, js_get (normalizeFeedback JSON_parse (VObj props)) (key_name c)
             = parseMaybeJSON JSON_parse (js_get (VObj props) (key_name c)))
  /\ (forall k, (forall c, k <> key_name c) ->
                js_get (normalizeFeedback JSON_parse (VObj props)) k
                = js_get (VObj props) k).
Proof.
  unfold normalizeFeedback. cbn [truthy fold_left spread_props key_name js_get].
  split.
  - intros c. destruct c; cbn [key_name];
      repeat (rewrite assoc_set_other by discriminate);
      rewrite assoc_set_same; reflexivity.
  - intros k Hk.
    pose proof (Hk opening) as H1. pose proof (Hk content) as H2.
    pose proof (Hk delivery) as H3. pose proof (Hk grammar) as H4.
    pose proof (Hk overall) as H5. cbn [key_name] in *.
    repeat (rewrite assoc_set_other by congruence). reflexivity.
Qed.

(** X22. Normalizing touches the five category fields and nothing
    else: an absent (falsy) feedback stays absent; on a plain-object
    feedback each category field becomes the parse of the raw field and
    every other field, the scores block and the suggestions among them,
    is what it was; and a feedback whose sections are not strings is left
    as it was, field for field. *)
Theorem normalizeFeedback_fields (JSON_parse : string -> option value) (fb : value) :
  (truthy fb = false -> normalizeFeedback JSON_parse fb = VUndefined)
  /\ (forall props,
        fb = VObj props ->
        (forall c, js_get (normalizeFeedback JSON_parse fb) (key_name c)
                   = parseMaybeJSON JSON_parse (js_get fb (key_name c)))
        /\ (forall k, (forall c, k <> key_name c) ->
                      js_get (normalizeFeedback JSON_parse fb) k = js_get fb k)
        /\ (forall c, block_of (normalizeFeedback JSON_parse fb) c = block_of fb c)
        /\ ((forall c str, js_get fb (key_name c) <> VStr str) ->
            forall k, js_get (normalizeFeedback JSON_parse fb) k = js_get fb k)).
Proof.
  split.
  - intros Hf. unfold normalizeFeedback. now rewrite Hf.
  - intros props ->.
    destruct (normalizeFeedback_get JSON_parse props) as [Hcat Hother].
    split; [exact Hcat|]. split; [exact Hother|]. split.
    + intros c. unfold block_of. rewrite Hother; [reflexivity|].
      intros c' E. symmetry in E. now apply key_name_not_scores in E.
    + intros Hns k. destruct (key_name_cases k) as [[c ->]|Hk].
      * rewrite Hcat. specialize (Hns c).
        destruct (js_get (VObj props) (key_name c)) eqn:Es; try reflexivity.
        exfalso. eapply Hns. reflexivity.
      * now apply Hother.
Qed.

Lemma normalizeFeedback_fields_witness :
  js_get (normalizeFeedback JSON_parse_ref raw_feedback) "scores"
  = js_get raw_feedback "scores"
  /\ normalizeFeedback JSON_parse_ref VNull = VUndefined.
Proof.
  destruct (normalizeFeedback_fields JSON_parse_ref raw_feedback) as [_ Hobj].
  destruct (Hobj _ eq_refl) as (_ & Hother & _).
  destruct (normalizeFeedback_fields JSON_parse_ref VNull) as [Hnull _].
  split; [|apply Hnull; reflexivity].
  apply Hother. intros []; discriminate.
Defined.

(** X23. The score of a normalized plain-object feedback is resolved
    from the parsed section and the untouched scores block: a section
    that arrives as a JSON string holding an object with a numeric
    [score] yields that number, even over a scores-block entry, and a
    section that is not a string resolves as it did before normalizing. *)
Theorem scoreOf_normalized (JSON_parse : string -> option value)
  (props : list (string * value)) (key : Category) :
  scoreOf (normalizeFeedback JSON_parse (VObj props)) key
  = coalesce
      (coalesce (inline_of (parseMaybeJSON JSON_parse
                              (js_get (VObj props) (key_name key))))
         (block_of (VObj props) key)) VNull
  /\ (forall str sec n,
        js_get (VObj props) (key_name key) = VStr str ->
        looks_like_json (trim str) = true ->
        JSON_parse (trim str) = Some (VObj sec) ->
        assoc sec "score" = Some (VNum n) ->
        scoreOf (normalizeFeedback JSON_parse (VObj props)) key = VNum n)
  /\ ((forall str, js_get (VObj props) (key_name key) <> VStr str) ->
      scoreOf (normalizeFeedback JSON_parse (VObj props)) key
      = scoreOf (VObj props) key).
Proof.
  destruct (normalizeFeedback_get JSON_parse props) as [Hcat Hother].
  assert (Hblock : block_of (normalizeFeedback JSON_parse (VObj props)) key
                   = block_of (VObj props) key).
  { unfold block_of. rewrite Hother; [reflexivity|].
    intros c' E. symmetry in E. now apply key_name_not_scores in E. }
  assert (Hgen : scoreOf (normalizeFeedback JSON_parse (VObj props)) key
                 = coalesce
                     (coalesce (inline_of (parseMaybeJSON JSON_parse
                                             (js_get (VObj props) (key_name key))))
                        (block_of (VObj props) key)) VNull).
  { unfold scoreOf at 1. rewrite Hcat, Hblock. reflexivity. }
  split; [exact Hgen|]. split.
  - intros str sec n Hsec Hlook Hparse Hscore. rewrite Hgen, Hsec.
    cbn [parseMaybeJSON]. rewrite Hlook, Hparse.
    unfold inline_of. cbn [truthy typeof_object js_in js_get andb].
    now rewrite Hscore.
  - intros Hns. rewrite Hgen. unfold scoreOf. cbn [truthy negb]. cbv zeta.
    destruct (js_get (VObj props) (key_name key)) eqn:Es; try reflexivity.
    exfalso. eapply Hns. reflexivity.
Qed.

Lemma scoreOf_normalized_witness :
  scoreOf (normalizeFeedback JSON_parse_ref raw_feedback) content = VNum 80.
Proof.
  destruct (scoreOf_normalized JSON_parse_ref
              [("opening", VStr "not json {broken");
               ("content", VStr (with_dquotes "{'summary':'ok','score':80}"));
               ("scores", VObj [("opening", VNum 65); ("content", VNum 10)])]
              content) as (_ & Hjson & _).
  apply (Hjson (with_dquotes "{'summary':'ok','score':80}")
           [("summary", VStr "ok"); ("score", VNum 80)] 80%Q);
    vm_compute; reflexivity.
Defined.

(** X24. The resolver never answers [undefined]: its result is [null]
    or a value that is neither [null] nor [undefined], taken from the
    section's inline score or from the scores block. *)
Theorem scoreOf_never_undefined (fb : value) (key : Category) :
  scoreOf fb key <> VUndefined
  /\ (nullish (scoreOf fb key) = true -> scoreOf fb key = VNull)
  /\ (scoreOf fb key = VNull
      \/ (nullish (scoreOf fb key) = false
          /\ (scoreOf fb key = inline_of (js_get fb (key_name key))
              \/ scoreOf fb key = block_of fb key))).
Proof.
  unfold scoreOf. destruct (negb (truthy fb)).
  - split; [discriminate|]. split; [reflexivity | now left].
  - cbv zeta.
    set (v := coalesce (inline_of (js_get fb (key_name key))) (block_of fb key)).
    assert (Hv : v = inline_of (js_get fb (key_name key)) \/ v = block_of fb key).
    { unfold v, coalesce. destruct (nullish (inline_of _)); auto. }
    clearbody v. unfold coalesce. destruct (nullish v) eqn:Ev.
    + split; [discriminate|]. split; [reflexivity | now left].
    + split; [intros E; rewrite E in Ev; discriminate|].
      split; [congruence | right; auto].
Qed.



(** ** Normalizing twice *)

Lemma assoc_set_id (props : list (string * value)) (k : string) (x : value) :
  assoc props k = Some x -> assoc_set props k x = props.
Proof.
  induction props as [|[k' v] rest IH]; simpl; [discriminate|].
  destruct (String.eqb k' k) eqn:E.
  - now intros [= ->].
  - intros H. now rewrite IH.
Qed.

Lemma normalizeFeedback_assoc (JSON_parse : string -> option value)
  (props : list (string * value)) (c : Category) :
  assoc (spread_props (normalizeFeedback JSON_parse (VObj props))) (key_name c)
  = Some (parseMaybeJSON JSON_parse (js_get (VObj props) (key_name c))).
Proof.
  unfold normalizeFeedback. cbn [truthy fold_left spread_props key_name].
  destruct c; cbn [key_name];
    repeat (rewrite assoc_set_other by discriminate);
    rewrite assoc_set_same; reflexivity.
Qed.

Section Idempotence.

Variable JSON_parse : string -> option value.

(** A text that starts with a brace or a bracket never parses to a string. *)
Hypothesis structured_parse :
  forall s parsed str,
    looks_like_json s = true -> JSON_parse s = Some parsed -> parsed <> VStr str.

Lemma parseMaybeJSON_twice (v : value) :
  parseMaybeJSON JSON_parse (parseMaybeJSON JSON_parse v)
  = parseMaybeJSON JSON_parse v.
Proof.
  destruct v as [| |b|n|str|elems|props]; try reflexivity.
  cbn [parseMaybeJSON]. cbv zeta.
  destruct (looks_like_json (trim str)) eqn:El.
  - destruct (JSON_parse (trim str)) as [parsed|] eqn:Ep.
    + destruct parsed as [| |b|n|str'|elems|props]; try reflexivity.
      exfalso. exact (structured_parse _ _ str' El Ep eq_refl).
    + cbn [parseMaybeJSON]. cbv zeta. now rewrite El, Ep.
  - cbn [parseMaybeJSON]. cbv zeta. now rewrite El.
Qed.

(** X25. Parsing is idempotent, and so is normalizing a plain-object
    feedback, for every parser that gives no string for a text that starts
    with a brace or a bracket (as [JSON.parse] does): a second pass finds
    nothing left to parse. *)
Theorem normalizeFeedback_idempotent (v : value) (props : list (string * value)) :
  parseMaybeJSON JSON_parse (parseMaybeJSON JSON_parse v)
  = parseMaybeJSON JSON_parse v
  /\ normalizeFeedback JSON_parse (normalizeFeedback JSON_parse (VObj props))
     = normalizeFeedback JSON_parse (VObj props).
Proof.
  split; [apply parseMaybeJSON_twice|].
  pose proof (normalizeFeedback_assoc JSON_parse props) as Hassoc.
  destruct (normalizeFeedback JSON_parse (VObj props)) as [| |b|n|str|elems|props']
    eqn:En; try (unfold normalizeFeedback in En; cbn [truthy] in En; discriminate).
  cbn [spread_props] in Hassoc.
  assert (Hstep : forall c,
             assoc_set props' (key_name c)
               (parseMaybeJSON JSON_parse (js_get (VObj props') (key_name c)))
             = props').
  { intros c. apply assoc_set_id. cbn [js_get]. rewrite (Hassoc c).
    now rewrite parseMaybeJSON_twice. }
  unfold normalizeFeedback. cbn [truthy fold_left spread_props].
  now rewrite !Hstep.
Qed.

End Idempotence.

Lemma json_value_structured (d : nat) (s : string) (v : value) (rest str : string) :
  (first_char s = Some "{"%char \/ first_char s = Some "["%char) ->
  json_value d s = Some (v, rest) -> v <> VStr str.
Proof.
  intros Hf H. destruct d as [|d]; [discriminate|].
  destruct s as [|c r]; [now destruct Hf|].
  destruct Hf as [Hf|Hf]; injection Hf as ->; cbn in H;
    repeat (match type of H with
            | context [match ?x with _ => _ end] => destruct x eqn:?
            end; try discriminate);
    injection H as <- _; discriminate.
Qed.

Lemma JSON_parse_ref_structured (s : string) (parsed : value) (str : string) :
  looks_like_json s = true -> JSON_parse_ref s = Some parsed -> parsed <> VStr str.
Proof.
  intros Hl H. apply looks_like_json_spec in Hl.
  assert (Hf : first_char s = Some "{"%char \/ first_char s = Some "["%char)
    by (destruct Hl as [[? _]|[? _]]; auto).
  unfold JSON_parse_ref in H.
  destruct (json_value (S (String.length s)) s) as [[v rest]|] eqn:Ev;
    [|discriminate].
  destruct (json_skip_ws rest); [|discriminate].
  injection H as <-. exact (json_value_structured _ _ _ _ _ Hf Ev).
Qed.

Lemma normalizeFeedback_idempotent_witness :
  normalizeFeedback JSON_parse_ref (normalizeFeedback JSON_parse_ref raw_feedback)
  = normalizeFeedback JSON_parse_ref raw_feedback.
Proof.
  apply (normalizeFeedback_idempotent JSON_parse_ref JSON_parse_ref_structured
           VNull).
Defined.

(** ** Legend toggles *)

Lemma filter_filter_andb {A : Type} (f g : A -> bool) (l : list A) :
  List.filter f (List.filter g l) = List.filter (fun x => g x && f x) l.
Proof.
  induction l as [|x l IH]; [reflexivity|]. simpl.
  destruct (g x); simpl; [destruct (f x)|]; now rewrite IH.
Qed.

Lemma onToggle_other (v : gmap string value) (k k' : string) :
  k' <> k -> onToggle v k !! k' = v !! k'.
Proof. intros Hne. unfold onToggle. now rewrite lookup_insert_ne. Qed.

Lemma onToggle_same (v : gmap string value) (k : string) :
  onToggle v k !! k = Some (VBool (negb (truthy (default VUndefined (v !! k))))).
Proof. unfold onToggle. now rewrite lookup_insert_eq. Qed.

(** X26. A click on a legend entry rewrites that entry only. An entry
    bound to a boolean is flipped, so the series changes between shown and
    hidden and a second click restores the map; an entry that is absent,
    which counts as shown, becomes [true] and the series stays shown:
    the first click on it changes nothing on the chart. *)
Theorem onToggle_flips (v : gmap string value) (k : string) :
  (forall k', k' <> k ->
     onToggle v k !! k' = v !! k' /\ is_visible (onToggle v k) k' = is_visible v k')
  /\ (forall b, v !! k = Some (VBool b) ->
        onToggle v k !! k = Some (VBool (negb b))
        /\ is_visible v k = b
        /\ is_visible (onToggle v k) k = negb b
        /\ onToggle (onToggle v k) k = v)
  /\ (v !! k = None ->
        is_visible v k = true
        /\ onToggle v k !! k = Some (VBool true)
        /\ is_visible (onToggle v k) k = true).
Proof.
  split; [|split].
  - intros k' Hne. pose proof (onToggle_other v k k' Hne) as E.
    split; [exact E|]. unfold is_visible. now rewrite E.
  - intros b Hb. pose proof (onToggle_same v k) as E.
    rewrite Hb in E. cbn [default truthy] in E.
    split; [exact E|]. split; [|split].
    + unfold is_visible. rewrite Hb. now destruct b.
    + unfold is_visible. rewrite E. now destruct b.
    + unfold onToggle at 1. rewrite E. unfold onToggle.
      rewrite insert_insert_eq. apply insert_id. rewrite Hb.
      now destruct b.
  - intros Hn. pose proof (onToggle_same v k) as E.
    rewrite Hn in E. cbn [default truthy negb] in E.
    split; [|split; [exact E|]].
    + unfold is_visible. now rewrite Hn.
    + unfold is_visible. now rewrite E.
Qed.

Lemma onToggle_flips_witness :
  is_visible (onToggle sample_visible "content") "content" = true
  /\ is_visible (onToggle sample_visible "opening") "opening" = true.
Proof.
  destruct (onToggle_flips sample_visible "content") as (_ & Hflip & _).
  destruct (onToggle_flips sample_visible "opening") as (_ & _ & Hnew).
  split.
  - destruct (Hflip false) as (_ & _ & H & _); [reflexivity | exact H].
  - destruct Hnew as (_ & _ & H); [reflexivity | exact H].
Defined.

Lemma filter_ext_all {A : Type} (f g : A -> bool) (l : list A) :
  (forall x, f x = g x) -> List.filter f l = List.filter g l.
Proof.
  intros H. induction l as [|x l IH]; [reflexivity|]. simpl.
  now rewrite H, IH.
Qed.

(** X27. What a click does to the chart: on a series that is switched
    on by a [true] entry the click takes exactly that series out of the
    drawn list and leaves the others, in their order; on a series that is
    switched off the drawn list before the click is the one after it
    without that series; on a key with no entry the drawn list stays what
    it was. *)
Theorem basePoints_after_toggle (filteredItems : list HistoryItem) (smooth : bool)
  (v : gmap string value) (k : string) :
  (v !! k = Some (VBool true) ->
   basePoints filteredItems smooth (onToggle v k)
   = option_map (List.filter (fun s => negb (String.eqb (s_key s) k)))
       (basePoints filteredItems smooth v))
  /\ (v !! k = Some (VBool false) ->
      basePoints filteredItems smooth v
      = option_map (List.filter (fun s => negb (String.eqb (s_key s) k)))
          (basePoints filteredItems smooth (onToggle v k)))
  /\ (v !! k = None ->
      basePoints filteredItems smooth (onToggle v k)
      = basePoints filteredItems smooth v).
Proof.
  assert (Hother : forall k', String.eqb k' k = false ->
                     is_visible (onToggle v k) k' = is_visible v k').
  { intros k' E. apply String.eqb_neq in E. unfold is_visible.
    now rewrite (onToggle_other v k k' E). }
  pose proof (onToggle_same v k) as Hsame.
  unfold basePoints. cbv zeta.
  destruct (mapM _ _) as [all|]; [|repeat split; reflexivity].
  cbn [option_map]. split; [|split]; intros Hk; f_equal;
    rewrite Hk in Hsame; cbn [default truthy negb] in Hsame.
  - rewrite filter_filter_andb. apply filter_ext_all. intros s.
    destruct (String.eqb (s_key s) k) eqn:E.
    + apply String.eqb_eq in E. rewrite E. unfold is_visible.
      now rewrite Hsame, Hk.
    + rewrite (Hother _ E). now rewrite andb_true_r.
  - rewrite filter_filter_andb. apply filter_ext_all. intros s.
    destruct (String.eqb (s_key s) k) eqn:E.
    + apply String.eqb_eq in E. rewrite E. unfold is_visible.
      now rewrite Hsame, Hk.
    + rewrite (Hother _ E). now rewrite andb_true_r.
  - apply filter_ext_all. intros s.
    destruct (String.eqb (s_key s) k) eqn:E.
    + apply String.eqb_eq in E. rewrite E. unfold is_visible.
      now rewrite Hsame, Hk.
    + apply (Hother _ E).
Qed.

Lemma basePoints_after_toggle_witness :
  option_map (map s_key)
    (basePoints sample_history false (onToggle sample_visible "delivery"))
  = Some ["overall"; "opening"; "grammar"].
Proof.
  destruct (basePoints_after_toggle sample_history false sample_visible "delivery")
    as (Hhide & _ & _).
  rewrite Hhide by reflexivity. vm_compute. reflexivity.
Defined.

